(** * Prepare_dataset.py: a shallow embedding of the curation pipeline

    The development follows [src/language_model_lab/src/Prepare_dataset.py].

    Modelling conventions.
    - A Python [str] is a sequence of Unicode code points: [list N].
    - A Python [float] is idealised as an exact rational ([Q]); rounding of
      IEEE doubles is not modelled.
    - A Python [dict] with string keys is a [gmap string value]; a Python
      [set] is a [gset].
    - A call that may raise is a value of [outcome]; [try/except Exception]
      is a match on it.
    - The optional third-party models (sentence encoder, causal LM, seeded
      splitter, tokenizer) are opaque oracles carried in records. *)

From Stdlib Require Import ZArith NArith QArith Qminmax Qabs Lia Lqa List Bool.
From stdpp Require Import base gmap strings list fin_maps fin_sets.
Import ListNotations.

Local Open Scope N_scope.

(** ** Strings as code-point sequences *)

Module PyStr.

Abbreviation char := N.
Abbreviation pystr := (list N).

Definition SPACE : char := 0x20.

Definition in_range (lo hi c : char) : bool := (lo <=? c) && (c <=? hi).

(** [str.isspace] on one code point; CPython uses the same table for the
    regular-expression class [\s] on [str] patterns, for [str.strip()] and
    for [str.split()]. *)
Definition isspace (c : char) : bool :=
  in_range 0x09 0x0D c || in_range 0x1C 0x1F c || (c =? 0x20)
  || (c =? 0x85) || (c =? 0xA0) || (c =? 0x1680)
  || in_range 0x2000 0x200A c || (c =? 0x2028) || (c =? 0x2029)
  || (c =? 0x202F) || (c =? 0x205F) || (c =? 0x3000).

(** [re.sub('[cls]', '', s)]. *)
Definition sub_delete (cls : char -> bool) (s : pystr) : pystr :=
  List.filter (fun c => negb (cls c)) s.

(** [re.sub('[cls]', r, s)] for a one-character replacement [r]. *)
Definition sub_char (cls : char -> bool) (r : char) (s : pystr) : pystr :=
  List.map (fun c => if cls c then r else c) s.

(** [re.sub('[cls]+', r, s)]: every maximal run of class characters is
    replaced by one [r].  [in_run] tells whether the previous character
    belonged to the run being replaced. *)
Fixpoint sub_runs_from (cls : char -> bool) (r : char) (in_run : bool)
    (s : pystr) : pystr :=
  match s with
  | [] => []
  | c :: s' =>
      if cls c then
        if in_run then sub_runs_from cls r true s'
        else r :: sub_runs_from cls r true s'
      else c :: sub_runs_from cls r false s'
  end.

Definition sub_runs (cls : char -> bool) (r : char) (s : pystr) : pystr :=
  sub_runs_from cls r false s.

(** [s.lstrip()], [s.rstrip()], [s.strip()]. *)
Fixpoint lstrip (s : pystr) : pystr :=
  match s with
  | [] => []
  | c :: s' => if isspace c then lstrip s' else s
  end.

Fixpoint rstrip (s : pystr) : pystr :=
  match s with
  | [] => []
  | c :: s' =>
      match rstrip s' with
      | [] => if isspace c then [] else [c]
      | r => c :: r
      end
  end.

Definition strip (s : pystr) : pystr := rstrip (lstrip s).

(** [s.split()]: the maximal runs of non-whitespace characters, in order.
    [cur] is the word being read, most recent character first. *)
Fixpoint split_from (cur : pystr) (s : pystr) : list pystr :=
  match s with
  | [] => match cur with [] => [] | _ => [rev cur] end
  | c :: s' =>
      if isspace c then
        match cur with
        | [] => split_from [] s'
        | _ => rev cur :: split_from [] s'
        end
      else split_from (c :: cur) s'
  end.

Definition split (s : pystr) : list pystr := split_from [] s.

(** [s.replace(' ', '')]. *)
Definition remove_spaces (s : pystr) : pystr :=
  List.filter (fun c => negb (c =? SPACE)) s.

(** Truthiness of a string. *)
Definition truthy (s : pystr) : bool :=
  match s with [] => false | _ => true end.

End PyStr.
Import PyStr.

(** ** [normalize_arabic] *)

Definition is_tashkeel (c : char) : bool := in_range 0x064B 0x0652 c.

Definition is_alef_variant (c : char) : bool :=
  (c =? 0x0625) || (c =? 0x0623) || (c =? 0x0622) || (c =? 0x0627).

Definition is_general_punct (c : char) : bool :=
  in_range 0x2000 0x206F c || in_range 0x2E00 0x2E7F c.

Definition normalize_arabic (text : pystr) : pystr :=
  if negb (truthy text) then [] else
  let text := sub_delete is_tashkeel text in
  let text := sub_char is_alef_variant 0x0627 text in
  let text := sub_char (N.eqb 0x0649) 0x064A text in
  let text := sub_char (N.eqb 0x0624) 0x0648 text in
  let text := sub_char (N.eqb 0x0626) 0x064A text in
  let text := sub_char (N.eqb 0x0629) 0x0647 text in
  let text := sub_runs is_general_punct SPACE text in
  let text := strip (sub_runs isspace SPACE text) in
  text.

(** ** Exceptions *)

Inductive exn : Set :=
  | ZeroDivisionError | ValueError | IndexError | KeyError
  | TypeError | AttributeError | OverflowError | RuntimeError.

(** The result of a call that may raise.  Every constructor of [exn] is a
    subclass of [Exception], so [except Exception] handles every [Raise]. *)
Inductive outcome (A : Type) : Type :=
  | Return (a : A)
  | Raise (e : exn).
Arguments Return {A} a.
Arguments Raise {A} e.

#[global] Instance outcome_ret : MRet outcome := fun A a => Return a.

#[global] Instance outcome_bind : MBind outcome := fun A B k m =>
  match m with
  | Return a => k a
  | Raise e => Raise e
  end.

(** [try: return m  except Exception: return None]. *)
Definition try_or_None {A} (m : outcome A) : option A :=
  match m with
  | Return a => Some a
  | Raise _ => None
  end.

Fixpoint mapM {A B} (f : A -> outcome B) (l : list A) : outcome (list B) :=
  match l with
  | [] => Return []
  | x :: l' => y ← f x; ys ← mapM f l'; Return (y :: ys)
  end.

Fixpoint filterM {A} (p : A -> outcome bool) (l : list A) : outcome (list A) :=
  match l with
  | [] => Return []
  | x :: l' =>
      b ← p x; ys ← filterM p l'; Return (if (b : bool) then x :: ys else ys)
  end.

(** ** Numbers *)

Abbreviation float := Q.

(** [a / b] on Python integers. *)
Definition true_div (a b : Z) : outcome float :=
  if (b =? 0)%Z then Raise ZeroDivisionError
  else Return (inject_Z a / inject_Z b)%Q.

(** [max(a, b)]: the first argument unless the second is strictly greater. *)
Definition py_max (a b : float) : float :=
  if Qle_bool b a then a else b.

(** ** Configuration *)

Definition MIN_WORD_COUNT : Z := 5.
Definition MAX_WORD_COUNT : Z := 150.
Definition DEDUPLICATION_THRESHOLD : float := 0.88.
Definition TEST_SIZE : float := 0.05.
Definition VALIDATION_SIZE : float := 0.10.
Definition AUGMENTATION_RATIO : float := 0.12.
Definition EMBEDDING_AUGMENT_SIM_THRESHOLD : float := 0.75.
Definition MINHASH_PERMUTATIONS : Z := 128.
Definition MINHASH_BANDWIDTH : float := 0.9.
Definition SEED : Z := 42.

(** ** Utilities *)

Definition jaccard_similarity_sets `{Countable A} (a b : gset A)
    : outcome float :=
  if bool_decide (a = ∅) || bool_decide (b = ∅) then Return 0%Q else
  let inter := size (a ∩ b) in
  let union := size (a ∪ b) in
  if (union =? 0)%nat then Return 0%Q
  else true_div (Z.of_nat inter) (Z.of_nat union).

Definition text_complexity (text : pystr) : outcome float :=
  let words := split text in
  let word_count := Z.of_nat (length words) in
  if (word_count =? 0)%Z then Return 0%Q else
  let char_count := Z.of_nat (length (remove_spaces text)) in
  ratio ← true_div char_count word_count;
  let score := (4.71 * ratio + 0.5 * inject_Z word_count - 21.43)%Q in
  Return (py_max 0 score).

(** ** Values and dictionaries *)

Inductive value : Type :=
  | VStr (s : pystr)
  | VBool (b : bool)
  | VInt (n : Z)
  | VFloat (x : float)
  | VNone.

(** A raw record: a dictionary whose values are strings. *)
Abbreviation raw_entry := (gmap string pystr).
(** A curated record: a dictionary of heterogeneous values. *)
Abbreviation entry := (gmap string value).

(** An ASCII string literal of the source, as code points. *)
Definition lit (s : string) : pystr :=
  List.map Ascii.N_of_ascii (String.list_ascii_of_string s).

(** [d[k]]. *)
Definition getitem (d : entry) (k : string) : outcome value :=
  match d !! k with
  | Some v => Return v
  | None => Raise KeyError
  end.

(** Receiver check of a [str] method call such as [v.split()]. *)
Definition as_str (v : value) : outcome pystr :=
  match v with
  | VStr s => Return s
  | _ => Raise AttributeError
  end.

(** [l[i]] on a list. *)
Definition list_getitem {A} (l : list A) (i : nat) : outcome A :=
  match l !! i with
  | Some x => Return x
  | None => Raise IndexError
  end.

Definition of_optional (o : option float) : value :=
  match o with
  | Some x => VFloat x
  | None => VNone
  end.

(** ** Optional components *)

(** [model.encode(text, convert_to_numpy=True)]. *)
Record Encoder : Type := { encode : pystr -> outcome (list float) }.

(** The tokenizer and the causal LM of the perplexity scorer; [lm_loss]
    stands for moving the encoding to the device, the forward pass and
    [outputs.loss.item()]. *)
Record Tokenizer : Type := { tokenize : pystr -> outcome (list Z) }.
Record CausalLM : Type := { lm_loss : list Z -> outcome float }.

(** The part of [numpy] the code calls that is not rational arithmetic. *)
Record Numpy : Type := { linalg_norm : list float -> float }.

Record LSHIndex : Type := { lsh_threshold : float; lsh_num_perm : Z }.

Record OptionalComponents : Type := {
  embedding_model : option Encoder;
  lm_model : option CausalLM;
  lm_tokenizer : option Tokenizer;
  use_min_hash : bool;
  minhash_lsh : option LSHIndex
}.

Definition OPTIONALS : OptionalComponents :=
  {| embedding_model := None; lm_model := None; lm_tokenizer := None;
     use_min_hash := false; minhash_lsh := None |}.

Record DatasetDict : Type := {
  train : list entry;
  validation : list entry;
  test : list entry
}.

(** What a run finds around it: the outcome of the guarded imports, the
    third-party constructors, and the collaborators [main] calls. *)
Record World : Type := {
  SENTECE_EMBEDDINGS_AVAILABLE : bool;
  np : option Numpy;
  DATASKETCH_AVAILABLE : bool;
  TRANSFORMERS_LM_AVAILABLE : bool;
  SentenceTransformer : string -> outcome Encoder;
  AutoTokenizer_from_pretrained : string -> outcome Tokenizer;
  AutoModelForCausalLM_from_pretrained : string -> outcome CausalLM;
  MinHashLSH : float -> Z -> outcome LSHIndex;
  math_exp : float -> outcome float;
  (** [ds.train_test_split(test_size=.., seed=..)]: (train, test). *)
  train_test_split : list entry -> float -> Z -> outcome (list entry * list entry);
  cpu_count : option nat;
  (** tokenizer construction, [final_dataset.map(.., num_proc=..)] and
      [save_to_disk(OUTPUT_DIR)]. *)
  tokenize_and_save : DatasetDict -> option nat -> outcome unit
}.

Definition str_truthy (s : option string) : bool :=
  match s with
  | Some (String _ _) => true
  | _ => false
  end.

Definition init_optional_components (w : World) (embedding_model_name : string)
    (lm_model_name : option string) (o : OptionalComponents)
    : OptionalComponents :=
  let o :=
    if SENTECE_EMBEDDINGS_AVAILABLE w then
      match SentenceTransformer w embedding_model_name with
      | Return m =>
          {| embedding_model := Some m; lm_model := lm_model o;
             lm_tokenizer := lm_tokenizer o; use_min_hash := use_min_hash o;
             minhash_lsh := minhash_lsh o |}
      | Raise _ => o
      end
    else o in
  let o :=
    if str_truthy lm_model_name && TRANSFORMERS_LM_AVAILABLE w then
      match AutoTokenizer_from_pretrained w (default EmptyString lm_model_name) with
      | Return t =>
          let o :=
            {| embedding_model := embedding_model o; lm_model := lm_model o;
               lm_tokenizer := Some t; use_min_hash := use_min_hash o;
               minhash_lsh := minhash_lsh o |} in
          match AutoModelForCausalLM_from_pretrained w
                  (default EmptyString lm_model_name) with
          | Return m =>
              {| embedding_model := embedding_model o; lm_model := Some m;
                 lm_tokenizer := lm_tokenizer o; use_min_hash := use_min_hash o;
                 minhash_lsh := minhash_lsh o |}
          | Raise _ => o
          end
      | Raise _ => o
      end
    else o in
  if DATASKETCH_AVAILABLE w then
    match MinHashLSH w MINHASH_BANDWIDTH MINHASH_PERMUTATIONS with
    | Return l =>
        {| embedding_model := embedding_model o; lm_model := lm_model o;
           lm_tokenizer := lm_tokenizer o; use_min_hash := true;
           minhash_lsh := Some l |}
    | Raise _ =>
        {| embedding_model := embedding_model o; lm_model := lm_model o;
           lm_tokenizer := lm_tokenizer o; use_min_hash := false;
           minhash_lsh := minhash_lsh o |}
    end
  else o.

(** ** Augmentation and scoring *)

Definition fallback_simple_augment (sentence : pystr) : pystr := sentence.

(** [np.dot] of two vectors; shapes must agree. *)
Definition dot (u v : list float) : outcome float :=
  if (length u =? length v)%nat
  then Return (fold_right Qplus 0%Q (zip_with Qmult u v))
  else Raise ValueError.

(** One entry of
    [np.dot(pool_embs, base_emb) /
       (np.linalg.norm(pool_embs, axis=1) * np.linalg.norm(base_emb) + 1e-9)]. *)
Definition cosine_row (n : Numpy) (base_emb row : list float) : outcome float :=
  d ← dot row base_emb;
  Return (d / (linalg_norm n row * linalg_norm n base_emb + (1 # 1000000000)))%Q.

(** [np.argmax]: the first index holding the maximum. *)
Fixpoint argmax_from (best_idx : nat) (best : float) (i : nat)
    (l : list float) : nat :=
  match l with
  | [] => best_idx
  | x :: l' =>
      if Qle_bool x best then argmax_from best_idx best (S i) l'
      else argmax_from i x (S i) l'
  end.

Definition argmax (l : list float) : outcome nat :=
  match l with
  | [] => Raise ValueError
  | x :: l' => Return (argmax_from 0 x 1 l')
  end.

Definition call_encode (model : option Encoder) (text : pystr)
    : outcome (list float) :=
  match model with
  | Some m => encode m text
  | None => Raise AttributeError
  end.

(** The body of the [try] block of [embedding_based_augment]. *)
Definition embedding_based_augment_body (n : Numpy) (text : pystr)
    (pool_texts : list pystr) (model : option Encoder)
    : outcome (option pystr) :=
  base_emb ← call_encode model text;
  pool_embs ← mapM (call_encode model) pool_texts;
  sims ← mapM (cosine_row n base_emb) pool_embs;
  best_idx ← argmax sims;
  s ← list_getitem sims best_idx;
  if Qle_bool EMBEDDING_AUGMENT_SIM_THRESHOLD s then
    t ← list_getitem pool_texts best_idx;
    if bool_decide (t ≠ text) then Return (Some t) else Return None
  else Return None.

Definition embedding_based_augment (w : World) (text : pystr)
    (pool_texts : list pystr) (model : option Encoder) : option pystr :=
  match SENTECE_EMBEDDINGS_AVAILABLE w, np w with
  | true, Some n =>
      match embedding_based_augment_body n text pool_texts model with
      | Return r => r
      | Raise _ => None
      end
  | _, _ => None
  end.

(** The body of the [try] block of [lm_perplexity_score]. *)
Definition lm_perplexity_score_body (w : World) (o : OptionalComponents)
    (text : pystr) : outcome float :=
  enc ← match lm_tokenizer o with
        | Some t => tokenize t text
        | None => Raise TypeError
        end;
  loss ← match lm_model o with
         | Some m => lm_loss m enc
         | None => Raise TypeError
         end;
  math_exp w loss.

Definition lm_perplexity_score (w : World) (o : OptionalComponents)
    (text : pystr) : option float :=
  if negb (TRANSFORMERS_LM_AVAILABLE w && bool_decide (is_Some (lm_model o)))
  then None
  else try_or_None (lm_perplexity_score_body w o text).

Definition compute_quality_score (text complexity perplexity : value) : float :=
  0.5%Q.

(** ** Pipeline core *)

(** [len(e['text'].split())]. *)
Definition word_count_of (e : entry) : outcome Z :=
  v ← getitem e "text"%string;
  s ← as_str v;
  Return (Z.of_nat (length (split s))).

(** The body of the loop "Add metadata": the dictionary after the four
    assignments. *)
Definition add_metadata (w : World) (o : OptionalComponents) (e : entry)
    : outcome entry :=
  wc ← word_count_of e;
  let e := <["word_count"%string := VInt wc]> e in
  c ← (v ← getitem e "text"%string; s ← as_str v; text_complexity s);
  let e := <["complexity"%string := VFloat c]> e in
  p ← (v ← getitem e "text"%string; s ← as_str v;
       Return (lm_perplexity_score w o s));
  let e := <["perplexity"%string := of_optional p]> e in
  t ← getitem e "text"%string;
  cv ← getitem e "complexity"%string;
  pv ← getitem e "perplexity"%string;
  Return (<["quality_score"%string := VFloat (compute_quality_score t cv pv)]> e).

Definition enrich (e : raw_entry) : entry :=
  <["text"%string := VStr (normalize_arabic (default [] (e !! "text"%string)))]>
  (<["source"%string := VStr (default (lit "unknown") (e !! "source"%string))]>
  (<["is_augmented"%string := VBool false]> ∅)).

Definition curate_pipeline (w : World) (o : OptionalComponents)
    (raw_data : list raw_entry) : outcome (list entry) :=
  let enriched :=
    List.map enrich
      (List.filter (fun e => truthy (strip (default [] (e !! "text"%string))))
         raw_data) in
  enriched ← filterM (fun e =>
      n ← word_count_of e;
      Return ((MIN_WORD_COUNT <=? n)%Z && (n <=? MAX_WORD_COUNT)%Z)) enriched;
  let final_list := enriched in
  mapM (add_metadata w o) final_list.

Definition build_raw_data_from_paths (paths : gmap string string)
    : list raw_entry := [].

Definition RAW_CORPUS_PATHS : gmap string string :=
  <["conversations"%string := "data/conversations.txt"%string]>
  (<["articles"%string := "data/articles.txt"%string]> ∅).

(** ** Orchestration *)

Inductive level : Set := INFO | ERROR.

(** What [main] leaves behind: the records it logs itself, the split it
    built (if it got that far), whether the dataset was written, and how the
    call ended. *)
Record Run : Type := {
  run_log : list (level * string);
  run_final_dataset : option DatasetDict;
  run_saved : bool;
  run_result : outcome unit
}.

Definition banner : level * string :=
  (INFO, "=== Starting prepare_dataset_v4 pipeline ==="%string).

(** [main] from the point where [raw_data] is bound. *)
Definition main_from (w : World) (o : OptionalComponents)
    (raw_data : list raw_entry) : Run :=
  match raw_data with
  | [] =>
      {| run_log := [banner; (ERROR, "No data found. Aborting."%string)];
         run_final_dataset := None; run_saved := false;
         run_result := Return tt |}
  | _ =>
  match curate_pipeline w o raw_data with
  | Raise e =>
      {| run_log := [banner]; run_final_dataset := None; run_saved := false;
         run_result := Raise e |}
  | Return [] =>
      {| run_log :=
           [banner; (ERROR, "No data left after curation. Aborting."%string)];
         run_final_dataset := None; run_saved := false;
         run_result := Return tt |}
  | Return curated_data =>
  match train_test_split w curated_data TEST_SIZE SEED with
  | Raise e =>
      {| run_log := [banner]; run_final_dataset := None; run_saved := false;
         run_result := Raise e |}
  | Return (tt_train, tt_test) =>
  match train_test_split w tt_train
          (VALIDATION_SIZE / (1 - TEST_SIZE))%Q SEED with
  | Raise e =>
      {| run_log := [banner]; run_final_dataset := None; run_saved := false;
         run_result := Raise e |}
  | Return (tv_train, tv_test) =>
  let final_dataset :=
    {| train := tv_train; validation := tv_test; test := tt_test |} in
  match tokenize_and_save w final_dataset (cpu_count w) with
  | Raise e =>
      {| run_log := [banner]; run_final_dataset := Some final_dataset;
         run_saved := false; run_result := Raise e |}
  | Return _ =>
      {| run_log :=
           [banner; (INFO, "--- Pipeline Finished Successfully! ---"%string)];
         run_final_dataset := Some final_dataset; run_saved := true;
         run_result := Return tt |}
  end end end end end.

Record Args : Type := {
  arg_embedding_model : string;
  arg_lm_model : option string
}.

Definition main (w : World) (args : Args) : Run :=
  let o := init_optional_components w (arg_embedding_model args)
             (arg_lm_model args) OPTIONALS in
  main_from w o (build_raw_data_from_paths RAW_CORPUS_PATHS).

(** The exit status of [python Prepare_dataset.py]: the [__main__] block
    calls [main(args)] and discards its value, so the interpreter exits with
    0 unless an exception escapes. *)
Definition exit_status (r : Run) : Z :=
  match run_result r with
  | Return _ => 0
  | Raise _ => 1
  end.

(** ** Vocabulary of the statements *)

(** Whitespace of [s] consists of isolated [SPACE] characters;
    [after_space] tells whether the character before [s] was whitespace. *)
Fixpoint single_spaced (after_space : bool) (s : pystr) : bool :=
  match s with
  | [] => true
  | c :: s' =>
      if isspace c
      then negb after_space && (c =? SPACE) && single_spaced true s'
      else single_spaced false s'
  end.

(** The five single-character rewrites of [normalize_arabic], fused. *)
Definition fold_letter (c : char) : char :=
  let c := if is_alef_variant c then 0x0627 else c in
  let c := if 0x0649 =? c then 0x064A else c in
  let c := if 0x0624 =? c then 0x0648 else c in
  let c := if 0x0626 =? c then 0x064A else c in
  if 0x0629 =? c then 0x0647 else c.

(** A character that no rewriting step of [normalize_arabic] changes. *)
Definition settled (c : char) : bool :=
  negb (is_tashkeel c) && (fold_letter c =? c) && negb (is_general_punct c).

(** The number of words of a text, counted as word starts: a character
    that is not whitespace and follows whitespace or the start of the text. *)
Fixpoint word_starts (after_space : bool) (s : pystr) : nat :=
  match s with
  | [] => 0
  | c :: s' =>
      if isspace c then word_starts true s'
      else ((if after_space then 1 else 0) + word_starts false s')%nat
  end.

Definition count_words (s : pystr) : nat := word_starts true s.

(** The number of characters of a text other than U+0020. *)
Definition count_non_space (s : pystr) : nat :=
  (length s - count_occ N.eq_dec s SPACE)%nat.

(** The readability formula on the two counts, before clamping. *)
Definition complexity_formula (chars words : nat) : float :=
  (4.71 * (inject_Z (Z.of_nat chars) / inject_Z (Z.of_nat words))
   + 0.5 * inject_Z (Z.of_nat words) - 21.43)%Q.

(** The value [text_complexity] computes, in terms of the two counts. *)
Definition complexity_value (text : pystr) : float :=
  if (Z.of_nat (count_words text) =? 0)%Z then 0%Q
  else py_max 0 (complexity_formula (count_non_space text) (count_words text)).

(** The records of the raw input that reach the end of [curate_pipeline],
    and the dictionary emitted for each. *)
Definition raw_text (r : raw_entry) : pystr := default [] (r !! "text"%string).

Definition nonblank (r : raw_entry) : bool := truthy (strip (raw_text r)).

Definition within_bounds (r : raw_entry) : bool :=
  let n := Z.of_nat (length (split (normalize_arabic (raw_text r)))) in
  (MIN_WORD_COUNT <=? n)%Z && (n <=? MAX_WORD_COUNT)%Z.

Definition survivors (raw_data : list raw_entry) : list raw_entry :=
  List.filter within_bounds (List.filter nonblank raw_data).

Definition curated (w : World) (o : OptionalComponents) (r : raw_entry) : entry :=
  let t := normalize_arabic (raw_text r) in
  let c := VFloat (complexity_value t) in
  let p := of_optional (lm_perplexity_score w o t) in
  <["quality_score"%string := VFloat (compute_quality_score (VStr t) c p)]>
  (<["perplexity"%string := p]>
  (<["complexity"%string := c]>
  (<["word_count"%string := VInt (Z.of_nat (length (split t)))]> (enrich r)))).

(** Two runs see the same perplexity scorer. *)
Definition same_scorer (w1 w2 : World) (o1 o2 : OptionalComponents) : Prop :=
  TRANSFORMERS_LM_AVAILABLE w1 = TRANSFORMERS_LM_AVAILABLE w2 /\
  lm_model o1 = lm_model o2 /\
  lm_tokenizer o1 = lm_tokenizer o2 /\
  (forall x, math_exp w1 x = math_exp w2 x).

(** The perplexity scorer is not loaded, or its call on [text] raises. *)
Definition scorer_unavailable (w : World) (o : OptionalComponents) : Prop :=
  TRANSFORMERS_LM_AVAILABLE w = false \/ lm_model o = None.

Definition scorer_raises (w : World) (o : OptionalComponents) (text : pystr)
    : Prop :=
  exists e, lm_perplexity_score_body w o text = Raise e.

(** [sep.join(words)]. *)
Fixpoint join (sep : pystr) (words : list pystr) : pystr :=
  match words with
  | [] => []
  | [w] => w
  | w :: ws => w ++ sep ++ join sep ws
  end.

(** A character that [normalize_arabic] removes without leaving a letter
    behind: whitespace, a diacritic, or general punctuation. *)
Definition is_filler (c : char) : bool :=
  isspace c || is_tashkeel c || is_general_punct c.

(** [l[idx] = m] is the maximum of [l], and [idx] is the first index
    holding it. *)
Definition first_max (l : list float) (idx : nat) (m : float) : Prop :=
  l !! idx = Some m /\
  (forall j y, l !! j = Some y -> (y <= m)%Q) /\
  (forall j y, (j < idx)%nat -> l !! j = Some y -> (y < m)%Q).

(** The similarity the code computes between the source text and one
    candidate: both embeddings, then their regularised cosine. *)
Definition pool_similarity (n : Numpy) (model : option Encoder)
    (text candidate : pystr) : outcome float :=
  base_emb ← call_encode model text;
  row ← call_encode model candidate;
  cosine_row n base_emb row.

(** The raw record read back from an emitted one: its text and source. *)
Definition reingest (e : entry) : raw_entry :=
  match e !! "text"%string, e !! "source"%string with
  | Some (VStr t), Some (VStr src) =>
      <["text"%string := t]> (<["source"%string := src]> ∅)
  | _, _ => ∅
  end.


(** ** Sample worlds and inputs *)

Module Sample.

(** A norm that agrees with the Euclidean one on vectors with at most one
    non-zero coordinate, which is all [parity_encoder] produces. *)
Definition axis_numpy : Numpy :=
  {| linalg_norm := fun v => fold_right Qplus 0%Q (List.map Qabs v) |}.

Definition parity_encoder : Encoder :=
  {| encode := fun t =>
       Return (match t with
               | c :: _ => if N.even c then [1; 0] else [0; 1]
               | [] => [0; 0]
               end)%Q |}.

Definition code_point_tokenizer : Tokenizer :=
  {| tokenize := fun t => Return (List.map Z.of_N t) |}.

Definition zero_loss_lm : CausalLM := {| lm_loss := fun _ => Return 0%Q |}.

Definition crashing_lm : CausalLM := {| lm_loss := fun _ => Raise RuntimeError |}.

(** [math.exp] tabulated at 0 only. *)
Definition exp_at_zero (x : float) : outcome float :=
  if Qeq_bool x 0 then Return 1%Q else Raise OverflowError.

(** A splitter that sends the first record to the test side. *)
Definition head_split (ds : list entry) (size : float) (seed : Z)
    : outcome (list entry * list entry) :=
  Return (skipn 1 ds, firstn 1 ds).

(** A splitter that behaves like [head_split] at [SEED] only. *)
Definition seeded_split (ds : list entry) (size : float) (seed : Z)
    : outcome (list entry * list entry) :=
  if (seed =? SEED)%Z then head_split ds size seed else Return (ds, []).

Definition full_world : World :=
  {| SENTECE_EMBEDDINGS_AVAILABLE := true;
     np := Some axis_numpy;
     DATASKETCH_AVAILABLE := true;
     TRANSFORMERS_LM_AVAILABLE := true;
     SentenceTransformer := fun _ => Return parity_encoder;
     AutoTokenizer_from_pretrained := fun _ => Return code_point_tokenizer;
     AutoModelForCausalLM_from_pretrained := fun _ => Return zero_loss_lm;
     MinHashLSH := fun t p => Return {| lsh_threshold := t; lsh_num_perm := p |};
     math_exp := exp_at_zero;
     train_test_split := head_split;
     cpu_count := Some 8%nat;
     tokenize_and_save := fun _ _ => Return tt |}.

(** The same components on another machine: another core count, a failing
    export, and a splitter that differs away from [SEED]. *)
Definition other_machine : World :=
  {| SENTECE_EMBEDDINGS_AVAILABLE := true;
     np := Some axis_numpy;
     DATASKETCH_AVAILABLE := true;
     TRANSFORMERS_LM_AVAILABLE := true;
     SentenceTransformer := fun _ => Return parity_encoder;
     AutoTokenizer_from_pretrained := fun _ => Return code_point_tokenizer;
     AutoModelForCausalLM_from_pretrained := fun _ => Return zero_loss_lm;
     MinHashLSH := fun t p => Return {| lsh_threshold := t; lsh_num_perm := p |};
     math_exp := exp_at_zero;
     train_test_split := seeded_split;
     cpu_count := None;
     tokenize_and_save := fun _ _ => Raise RuntimeError |}.

(** No optional package is installed. *)
Definition bare_world : World :=
  {| SENTECE_EMBEDDINGS_AVAILABLE := false;
     np := None;
     DATASKETCH_AVAILABLE := false;
     TRANSFORMERS_LM_AVAILABLE := false;
     SentenceTransformer := fun _ => Raise TypeError;
     AutoTokenizer_from_pretrained := fun _ => Raise TypeError;
     AutoModelForCausalLM_from_pretrained := fun _ => Raise TypeError;
     MinHashLSH := fun _ _ => Raise TypeError;
     math_exp := exp_at_zero;
     train_test_split := head_split;
     cpu_count := Some 1%nat;
     tokenize_and_save := fun _ _ => Return tt |}.

Definition args : Args :=
  {| arg_embedding_model := "paraphrase-multilingual-MiniLM-L12-v2"%string;
     arg_lm_model := Some "aragpt2-base"%string |}.

Definition loaded : OptionalComponents :=
  init_optional_components full_world (arg_embedding_model args)
    (arg_lm_model args) OPTIONALS.

Definition record_of (text source : string) : raw_entry :=
  <["text"%string := lit text]> (<["source"%string := lit source]> ∅).

Definition five_words : raw_entry := record_of "a b c d e" "articles".
Definition six_words : raw_entry := record_of "p q r s t u" "conversations".
Definition two_words : raw_entry := record_of "too short" "articles".

(** Word-level shingles. *)
Definition word_shingles (t : pystr) : gset (list N) := list_to_set (split t).

End Sample.

(** * Properties *)

(** ** Whitespace runs and stripping *)

Lemma single_spaced_sub_runs b x :
  single_spaced b (sub_runs_from isspace SPACE b x) = true.
Proof.
  revert b; induction x as [|c x IH]; intros b; simpl; [done|].
  destruct (isspace c) eqn:Hc.
  - destruct b; simpl; [apply IH|]. rewrite IH. done.
  - simpl. rewrite Hc. apply IH.
Qed.

Lemma sub_runs_single_spaced b y :
  single_spaced b y = true -> sub_runs_from isspace SPACE b y = y.
Proof.
  revert b; induction y as [|c y IH]; intros b; simpl; [done|].
  destruct (isspace c) eqn:Hc.
  - intros H. apply andb_prop in H as [H Hy]. apply andb_prop in H as [Hb Hsp].
    destruct b; [discriminate|]. apply N.eqb_eq in Hsp. subst c.
    f_equal. by apply IH.
  - intros H. f_equal. by apply IH.
Qed.

Lemma single_spaced_weaken b y :
  single_spaced b y = true -> single_spaced false y = true.
Proof.
  destruct y as [|c y]; simpl; [done|]. destruct (isspace c); [|done].
  destruct b; simpl; [discriminate|done].
Qed.

Lemma single_spaced_lstrip b y :
  single_spaced b y = true -> single_spaced false (lstrip y) = true.
Proof.
  revert b; induction y as [|c y IH]; intros b; simpl; [done|].
  destruct (isspace c) eqn:Hc.
  - intros H. apply andb_prop in H as [_ Hy]. by apply (IH true).
  - intros H. simpl. by rewrite Hc.
Qed.

Lemma single_spaced_rstrip b y :
  single_spaced b y = true -> single_spaced b (rstrip y) = true.
Proof.
  revert b; induction y as [|c y IH]; intros b; simpl; [done|].
  destruct (isspace c) eqn:Hc.
  - intros H. apply andb_prop in H as [H Hy].
    apply IH in Hy. destruct (rstrip y) as [|d r]; [done|].
    simpl in *. rewrite Hc, H. exact Hy.
  - intros H. apply IH in H. destruct (rstrip y) as [|d r].
    + simpl. by rewrite Hc.
    + simpl in *. rewrite Hc. exact H.
Qed.

Lemma lstrip_head z :
  match lstrip z with [] => True | c :: _ => isspace c = false end.
Proof.
  induction z as [|c z IH]; simpl; [done|].
  destruct (isspace c) eqn:Hc; [exact IH|done].
Qed.

Lemma rstrip_head c w :
  isspace c = false -> exists r, rstrip (c :: w) = c :: r.
Proof.
  intros Hc. simpl. rewrite Hc. destruct (rstrip w); eauto.
Qed.

Lemma rstrip_idem w : rstrip (rstrip w) = rstrip w.
Proof.
  induction w as [|c w IH]; simpl; [done|].
  destruct (rstrip w) as [|d r] eqn:Hr.
  - destruct (isspace c) eqn:Hc; simpl; [done|]. by rewrite Hc.
  - change (rstrip (c :: d :: r) = c :: d :: r).
    change (rstrip (c :: d :: r))
      with (match rstrip (d :: r) with
            | [] => if isspace c then [] else [c]
            | r0 => c :: r0
            end).
    by rewrite IH.
Qed.

Lemma strip_idem z : strip (strip z) = strip z.
Proof.
  unfold strip. pose proof (lstrip_head z) as Hh.
  destruct (lstrip z) as [|c w]; [done|].
  destruct (rstrip_head c w Hh) as [r Hr]. rewrite Hr.
  assert (lstrip (c :: r) = c :: r) as -> by (simpl; by rewrite Hh).
  rewrite <- Hr. apply rstrip_idem.
Qed.

Lemma collapse_whitespace_idem x :
  strip (sub_runs isspace SPACE (strip (sub_runs isspace SPACE x)))
  = strip (sub_runs isspace SPACE x).
Proof.
  assert (single_spaced false (strip (sub_runs isspace SPACE x)) = true) as H.
  { unfold strip. apply single_spaced_rstrip.
    apply (single_spaced_lstrip false). apply single_spaced_sub_runs. }
  unfold sub_runs at 1. rewrite (sub_runs_single_spaced _ _ H).
  apply strip_idem.
Qed.

(** ** Characters that survive normalization *)

Lemma letter_rewrites_fused x :
  sub_char (N.eqb 0x0629) 0x0647
    (sub_char (N.eqb 0x0626) 0x064A
       (sub_char (N.eqb 0x0624) 0x0648
          (sub_char (N.eqb 0x0649) 0x064A
             (sub_char is_alef_variant 0x0627 x))))
  = List.map fold_letter x.
Proof.
  unfold sub_char. rewrite !List.map_map. reflexivity.
Qed.

Lemma fold_letter_cases d :
  fold_letter d = d \/ In (fold_letter d) [0x0627; 0x064A; 0x0648; 0x0647].
Proof.
  unfold fold_letter, is_alef_variant. cbv zeta.
  destruct (d =? 0x0625) eqn:?; [right; vm_compute; tauto|].
  destruct (d =? 0x0623) eqn:?; [right; vm_compute; tauto|].
  destruct (d =? 0x0622) eqn:?; [right; vm_compute; tauto|].
  destruct (d =? 0x0627) eqn:?; [right; vm_compute; tauto|].
  cbn [orb].
  destruct (0x0649 =? d) eqn:?; [right; vm_compute; tauto|].
  destruct (0x0624 =? d) eqn:?; [right; vm_compute; tauto|].
  destruct (0x0626 =? d) eqn:?; [right; vm_compute; tauto|].
  destruct (0x0629 =? d) eqn:?; [right; vm_compute; tauto|].
  by left.
Qed.

Lemma fold_letter_settles d :
  is_tashkeel d = false ->
  is_tashkeel (fold_letter d) = false /\
  fold_letter (fold_letter d) = fold_letter d.
Proof.
  intros Hd. destruct (fold_letter_cases d) as [E|E].
  - by rewrite !E.
  - simpl in E. destruct E as [<-|[<-|[<-|[<-|[]]]]]; by vm_compute.
Qed.

Lemma In_sub_runs cls r b x c :
  In c (sub_runs_from cls r b x) -> c = r \/ (In c x /\ cls c = false).
Proof.
  revert b; induction x as [|d x IH]; intros b; simpl; [done|].
  destruct (cls d) eqn:Hd.
  - destruct b; simpl.
    + intros H. destruct (IH _ H) as [?|[? ?]]; auto.
    + intros [<-|H]; [auto|]. destruct (IH _ H) as [?|[? ?]]; auto.
  - simpl. intros [<-|H]; [auto|]. destruct (IH _ H) as [?|[? ?]]; auto.
Qed.

Lemma In_lstrip x c : In c (lstrip x) -> In c x.
Proof.
  induction x as [|d x IH]; simpl; [done|].
  destruct (isspace d); simpl; auto.
Qed.

Lemma In_rstrip x c : In c (rstrip x) -> In c x.
Proof.
  induction x as [|d x IH]; simpl; [done|].
  destruct (rstrip x) as [|e r].
  - destruct (isspace d); simpl; [done|]. intros [?|[]]; auto.
  - intros [?|H]; auto.
Qed.

Lemma In_strip x c : In c (strip x) -> In c x.
Proof. intros H. by apply In_lstrip, In_rstrip. Qed.

Lemma sub_delete_id cls t :
  Forall (fun c => cls c = false) t -> sub_delete cls t = t.
Proof.
  induction 1 as [|c t Hc _ IH]; simpl; [done|]. by rewrite Hc, IH.
Qed.

Lemma sub_runs_id cls r b t :
  Forall (fun c => cls c = false) t -> sub_runs_from cls r b t = t.
Proof.
  intros H; revert b. induction H as [|c t Hc _ IH]; intros b; simpl; [done|].
  by rewrite Hc, IH.
Qed.

Lemma map_fold_letter_id t :
  Forall (fun c => fold_letter c = c) t -> List.map fold_letter t = t.
Proof.
  induction 1 as [|c t Hc _ IH]; simpl; [done|]. by rewrite Hc, IH.
Qed.

Lemma settled_spec c :
  settled c = true <->
  is_tashkeel c = false /\ fold_letter c = c /\ is_general_punct c = false.
Proof.
  unfold settled. rewrite !andb_true_iff, !negb_true_iff, N.eqb_eq. tauto.
Qed.

(** Every character of a normalized text is settled. *)
Lemma normalize_arabic_settled s :
  Forall (fun c => settled c = true) (normalize_arabic s).
Proof.
  unfold normalize_arabic. destruct (negb (truthy s)); [constructor|].
  rewrite letter_rewrites_fused. apply List.Forall_forall. intros c Hc.
  apply In_strip, In_sub_runs in Hc as [->|[Hc _]]; [by vm_compute|].
  apply In_sub_runs in Hc as [->|[Hc Hp]]; [by vm_compute|].
  apply List.in_map_iff in Hc as (d & <- & Hd).
  apply List.filter_In in Hd as [_ Hd]. apply negb_true_iff in Hd.
  destruct (fold_letter_settles d Hd) as [H1 H2].
  apply settled_spec. auto.
Qed.

(** ** C9: normalization is idempotent *)

Example normalize_arabic_sample :
  normalize_arabic
    [0x20; 0x0623; 0x064E; 0x0646; 0x0629; 0x2014; 0x2014; 0x09; 0x0649; 0x20]
  = [0x0627; 0x0646; 0x0647; 0x20; 0x064A].
Proof. reflexivity. Qed.

(** C9. [normalize_arabic] is idempotent: normalizing an already normalized
    string returns it unchanged, for every input string. *)
Theorem normalize_arabic_idempotent (s : pystr) :
  normalize_arabic (normalize_arabic s) = normalize_arabic s.
Proof.
  pose proof (normalize_arabic_settled s) as Hs.
  assert (exists u, normalize_arabic s = strip (sub_runs isspace SPACE u))
    as [u Hu].
  { unfold normalize_arabic. destruct (negb (truthy s)); [by exists []|eauto]. }
  set (t := normalize_arabic s) in *.
  assert (Forall (fun c => is_tashkeel c = false) t) as H1.
  { eapply List.Forall_impl; [|exact Hs]. intros c Hc. apply settled_spec in Hc. tauto. }
  assert (Forall (fun c => fold_letter c = c) t) as H2.
  { eapply List.Forall_impl; [|exact Hs]. intros c Hc.
    apply settled_spec in Hc. tauto. }
  assert (Forall (fun c => is_general_punct c = false) t) as H3.
  { eapply List.Forall_impl; [|exact Hs]. intros c Hc.
    apply settled_spec in Hc. tauto. }
  unfold normalize_arabic at 1.
  destruct (negb (truthy t)) eqn:Ht.
  - destruct t; [done|discriminate].
  - rewrite letter_rewrites_fused, (sub_delete_id _ _ H1),
      (map_fold_letter_id _ H2).
    unfold sub_runs at 2. rewrite (sub_runs_id _ _ _ _ H3).
    rewrite Hu. apply collapse_whitespace_idem.
Qed.

(** ** C10: Jaccard similarity of two sets *)

Lemma true_div_nonzero a b :
  b <> 0%Z -> true_div a b = Return (inject_Z a / inject_Z b)%Q.
Proof. intros Hb. unfold true_div. by rewrite (proj2 (Z.eqb_neq b 0) Hb). Qed.

Lemma ratio_in_unit_interval (i u : nat) :
  (i <= u)%nat -> (0 < u)%nat ->
  (0 <= inject_Z (Z.of_nat i) / inject_Z (Z.of_nat u) <= 1)%Q.
Proof.
  intros Hiu Hu.
  assert (0 < inject_Z (Z.of_nat u))%Q as Hpos.
  { change 0%Q with (inject_Z 0). rewrite <- Zlt_Qlt. lia. }
  split.
  - apply Qle_shift_div_l; [exact Hpos|]. rewrite Qmult_0_l.
    change 0%Q with (inject_Z 0). rewrite <- Zle_Qle. lia.
  - apply Qle_shift_div_r; [exact Hpos|]. rewrite Qmult_1_l.
    rewrite <- Zle_Qle. lia.
Qed.

(** C10. [jaccard_similarity_sets] is total and safe: for every pair of
    finite sets it returns (no [ZeroDivisionError]) a value in [0, 1], and
    that value is exactly 0 whenever either set is empty. *)
Theorem jaccard_similarity_sets_total `{Countable A} (a b : gset A) :
  exists q : float,
    jaccard_similarity_sets a b = Return q /\
    (0 <= q <= 1)%Q /\
    ((a = ∅ \/ b = ∅) -> q = 0%Q).
Proof.
  unfold jaccard_similarity_sets.
  destruct (bool_decide (a = ∅)) eqn:Ha; simpl.
  { exists 0%Q. repeat split; done. }
  destruct (bool_decide (b = ∅)) eqn:Hb; simpl.
  { exists 0%Q. repeat split; done. }
  apply bool_decide_eq_false in Ha, Hb.
  assert (0 < size (a ∪ b))%nat as Hu.
  { enough (size (a ∪ b) <> 0%nat) by lia. intros E.
    apply size_empty_inv in E. apply Ha, leibniz_equiv. set_solver. }
  destruct (Nat.eqb_spec (size (a ∪ b)) 0) as [E|_]; [lia|].
  rewrite true_div_nonzero by lia.
  eexists. split; [reflexivity|]. split.
  - apply ratio_in_unit_interval; [|exact Hu].
    apply subseteq_size. intros x Hx.
    apply elem_of_intersection in Hx as [Hx _]. apply elem_of_union. auto.
  - intros [?|?]; congruence.
Qed.

(** ** C5: lexical complexity *)

Lemma length_split_from cur s :
  length (split_from cur s)
  = (word_starts (negb (truthy cur)) s + (if truthy cur then 1 else 0))%nat.
Proof.
  revert cur; induction s as [|c s IH]; intros cur; simpl.
  - by destruct cur.
  - destruct (isspace c).
    + destruct cur; simpl; rewrite IH; simpl; lia.
    + rewrite IH. simpl. destruct cur; simpl; lia.
Qed.

Lemma length_split s : length (split s) = count_words s.
Proof. unfold split, count_words. rewrite length_split_from. simpl. lia. Qed.

Lemma length_remove_spaces s :
  length (remove_spaces s) = count_non_space s.
Proof.
  unfold count_non_space, remove_spaces.
  induction s as [|c s IH]; simpl; [done|].
  pose proof (count_occ_bound N.eq_dec SPACE s) as Hb.
  destruct (N.eqb_spec c SPACE) as [->|Hc]; simpl.
  - destruct (N.eq_dec SPACE SPACE); [|done]. lia.
  - destruct (N.eq_dec c SPACE); [done|]. simpl. lia.
Qed.

Lemma py_max_Qmax a b : (py_max a b == Qmax a b)%Q.
Proof.
  unfold py_max. destruct (Qle_bool b a) eqn:E.
  - apply Qle_bool_iff in E. symmetry. by apply Q.max_l.
  - symmetry. apply Q.max_r. apply Qnot_lt_le. intros Hlt.
    apply Qlt_le_weak, Qle_bool_iff in Hlt. congruence.
Qed.

Lemma py_max_nonneg b : (0 <= py_max 0 b)%Q.
Proof.
  unfold py_max. destruct (Qle_bool b 0) eqn:E; [apply Qle_refl|].
  apply Qnot_lt_le. intros Hlt.
  apply Qlt_le_weak, Qle_bool_iff in Hlt. congruence.
Qed.

Lemma text_complexity_value text :
  text_complexity text = Return (complexity_value text).
Proof.
  unfold text_complexity, complexity_value.
  rewrite length_split, length_remove_spaces.
  destruct (Z.eqb_spec (Z.of_nat (count_words text)) 0) as [E|E]; [done|].
  by rewrite true_div_nonzero.
Qed.

Lemma complexity_value_nonneg text : (0 <= complexity_value text)%Q.
Proof.
  unfold complexity_value.
  destruct (Z.of_nat (count_words text) =? 0)%Z;
    [apply Qle_refl|apply py_max_nonneg].
Qed.

(** C5. For every text, [text_complexity] returns (it never raises
    [ZeroDivisionError]) the maximum of 0 and
    4.71 * (non-space characters / words) + 0.5 * words - 21.43, which is
    therefore at least 0; for a text with no word it returns exactly 0. *)
Theorem text_complexity_formula (text : pystr) :
  exists q : float,
    text_complexity text = Return q /\
    (0 <= q)%Q /\
    (count_words text = 0%nat -> q = 0%Q) /\
    (count_words text <> 0%nat ->
     (q == Qmax 0 (complexity_formula (count_non_space text)
                     (count_words text)))%Q).
Proof.
  rewrite text_complexity_value. unfold complexity_value.
  destruct (Z.eqb_spec (Z.of_nat (count_words text)) 0) as [E|E].
  - exists 0%Q. repeat split; [apply Qle_refl|lia].
  - eexists. split; [reflexivity|]. split; [apply py_max_nonneg|].
    split; [lia|]. intros _. apply py_max_Qmax.
Qed.

(** ** The pipeline in closed form *)

Lemma mapM_pure {A B} (f : A -> outcome B) (g : A -> B) (l : list A) :
  (forall x, In x l -> f x = Return (g x)) ->
  mapM f l = Return (List.map g l).
Proof.
  induction l as [|x l IH]; intros Hf; simpl; [done|].
  rewrite (Hf x) by (by left). simpl.
  rewrite IH by (intros; apply Hf; by right). done.
Qed.

Lemma filterM_pure {A} (p : A -> outcome bool) (q : A -> bool) (l : list A) :
  (forall x, In x l -> p x = Return (q x)) ->
  filterM p l = Return (List.filter q l).
Proof.
  induction l as [|x l IH]; intros Hp; simpl; [done|].
  rewrite (Hp x) by (by left). simpl.
  rewrite IH by (intros; apply Hp; by right). simpl. by destruct (q x).
Qed.

Lemma enrich_text r :
  enrich r !! "text"%string = Some (VStr (normalize_arabic (raw_text r))).
Proof. unfold enrich. by rewrite lookup_insert_eq. Qed.

Lemma word_count_of_enrich r :
  word_count_of (enrich r)
  = Return (Z.of_nat (length (split (normalize_arabic (raw_text r))))).
Proof. unfold word_count_of, getitem. by rewrite enrich_text. Qed.

Lemma add_metadata_enrich w o r :
  add_metadata w o (enrich r) = Return (curated w o r).
Proof.
  unfold add_metadata. rewrite word_count_of_enrich. simpl.
  unfold getitem.
  rewrite !(lookup_insert_ne _ _ "text"%string) by done.
  rewrite enrich_text. simpl.
  rewrite text_complexity_value. simpl.
  rewrite !(lookup_insert_ne _ _ "text"%string) by done.
  rewrite enrich_text. simpl.
  rewrite !(lookup_insert_ne _ _ "text"%string) by done.
  rewrite enrich_text. simpl.
  rewrite (lookup_insert_ne _ "perplexity"%string "complexity"%string) by done.
  rewrite !lookup_insert_eq. simpl.
  reflexivity.
Qed.

Lemma filterM_enriched (rs : list raw_entry) :
  filterM (fun e =>
      n ← word_count_of e;
      Return ((MIN_WORD_COUNT <=? n)%Z && (n <=? MAX_WORD_COUNT)%Z))
    (List.map enrich rs)
  = Return (List.map enrich (List.filter within_bounds rs)).
Proof.
  induction rs as [|r rs IH]; simpl; [done|].
  rewrite word_count_of_enrich, IH. simpl.
  unfold within_bounds. by destruct (_ && _).
Qed.

Lemma mapM_add_metadata w o (rs : list raw_entry) :
  mapM (add_metadata w o) (List.map enrich rs)
  = Return (List.map (curated w o) rs).
Proof.
  induction rs as [|r rs IH]; simpl; [done|].
  by rewrite add_metadata_enrich, IH.
Qed.

(** [curate_pipeline] never raises, and its output is the list of the
    surviving raw records, in input order, each with its four metadata
    fields added. *)
Lemma curate_pipeline_closed_form w o raw_data :
  curate_pipeline w o raw_data
  = Return (List.map (curated w o) (survivors raw_data)).
Proof.
  unfold curate_pipeline, survivors.
  change (fun e : raw_entry => truthy (strip (default [] (e !! "text"%string))))
    with nonblank.
  rewrite filterM_enriched. simpl. apply mapM_add_metadata.
Qed.

Lemma curated_lookup_text w o r :
  curated w o r !! "text"%string = Some (VStr (normalize_arabic (raw_text r))).
Proof.
  unfold curated. cbv zeta.
  rewrite !(lookup_insert_ne _ _ "text"%string) by done. apply enrich_text.
Qed.

Lemma curated_lookup_word_count w o r :
  curated w o r !! "word_count"%string
  = Some (VInt (Z.of_nat (length (split (normalize_arabic (raw_text r)))))).
Proof.
  unfold curated. cbv zeta.
  rewrite !(lookup_insert_ne _ _ "word_count"%string) by done.
  apply lookup_insert_eq.
Qed.

Lemma curated_lookup_complexity w o r :
  curated w o r !! "complexity"%string
  = Some (VFloat (complexity_value (normalize_arabic (raw_text r)))).
Proof.
  unfold curated. cbv zeta.
  rewrite !(lookup_insert_ne _ _ "complexity"%string) by done.
  apply lookup_insert_eq.
Qed.

Lemma curated_lookup_perplexity w o r :
  curated w o r !! "perplexity"%string
  = Some (of_optional
            (lm_perplexity_score w o (normalize_arabic (raw_text r)))).
Proof.
  unfold curated. cbv zeta.
  rewrite !(lookup_insert_ne _ _ "perplexity"%string) by done.
  apply lookup_insert_eq.
Qed.

Lemma curated_lookup_quality_score w o r :
  curated w o r !! "quality_score"%string = Some (VFloat 0.5%Q).
Proof. unfold curated. cbv zeta. apply lookup_insert_eq. Qed.

Lemma within_bounds_spec r :
  within_bounds r = true ->
  (MIN_WORD_COUNT
   <= Z.of_nat (length (split (normalize_arabic (raw_text r))))
   <= MAX_WORD_COUNT)%Z.
Proof. unfold within_bounds. cbv zeta. lia. Qed.

(** The scorer enters an emitted record only through its ["perplexity"]
    field. *)
Lemma curated_delete_perplexity w1 o1 w2 o2 r :
  delete "perplexity"%string (curated w1 o1 r)
  = delete "perplexity"%string (curated w2 o2 r).
Proof.
  apply map_eq. intros k. unfold curated. cbv zeta.
  destruct (decide (k = "perplexity"%string)) as [->|Hk].
  - by rewrite !lookup_delete_eq.
  - rewrite !lookup_delete_ne by done.
    destruct (decide (k = "quality_score"%string)) as [->|Hq].
    + by rewrite !lookup_insert_eq.
    + rewrite !(lookup_insert_ne _ "quality_score"%string k) by done.
      by rewrite !(lookup_insert_ne _ "perplexity"%string k) by done.
Qed.

(** ** The perplexity scorer *)

Lemma lm_perplexity_score_unavailable w o text :
  scorer_unavailable w o -> lm_perplexity_score w o text = None.
Proof.
  unfold lm_perplexity_score. intros [-> | ->]; simpl; [done|].
  rewrite andb_false_r. done.
Qed.

Lemma lm_perplexity_score_raises w o text :
  scorer_raises w o text -> lm_perplexity_score w o text = None.
Proof.
  unfold lm_perplexity_score. intros [e ->]. simpl. by destruct (negb _).
Qed.

Lemma lm_perplexity_score_same w1 w2 o1 o2 text :
  same_scorer w1 w2 o1 o2 ->
  lm_perplexity_score w1 o1 text = lm_perplexity_score w2 o2 text.
Proof.
  intros (Hf & Hm & Ht & He).
  unfold lm_perplexity_score, lm_perplexity_score_body.
  rewrite Hf, Hm, Ht. destruct (negb _); [done|]. f_equal.
  destruct (match lm_tokenizer o2 with Some _ => _ | None => _ end); [|done].
  simpl. destruct (match lm_model o2 with Some _ => _ | None => _ end); [|done].
  simpl. apply He.
Qed.

Lemma curated_same_scorer w1 w2 o1 o2 r :
  same_scorer w1 w2 o1 o2 -> curated w1 o1 r = curated w2 o2 r.
Proof.
  intros Hs. unfold curated.
  by rewrite (lm_perplexity_score_same w1 w2 o1 o2 _ Hs).
Qed.

Lemma curate_pipeline_same_scorer w1 w2 o1 o2 raw_data :
  same_scorer w1 w2 o1 o2 ->
  curate_pipeline w1 o1 raw_data = curate_pipeline w2 o2 raw_data.
Proof.
  intros Hs. rewrite !curate_pipeline_closed_form. f_equal.
  apply List.map_ext. intros r. by apply curated_same_scorer.
Qed.

Example sample_curated_texts :
  (fun out => match out with
              | Return l => Some (List.map (fun e : entry => e !! "text"%string) l)
              | Raise _ => None
              end)
    (curate_pipeline Sample.full_world Sample.loaded
       [Sample.five_words; Sample.two_words; Sample.six_words])
  = Some [Some (VStr (lit "a b c d e")); Some (VStr (lit "p q r s t u"))].
Proof. vm_compute. reflexivity. Qed.

(** ** C2: the invariant of emitted records *)

Lemma split_nonempty_text t : (0 < length (split t))%nat -> t <> [].
Proof. intros H ->. simpl in H. lia. Qed.

(** C2. Whatever optional scorers are available, [curate_pipeline] returns,
    and every record it emits has a non-empty text, a word count between
    MIN_WORD_COUNT and MAX_WORD_COUNT, and a quality score that is present
    and at least 0. *)
Theorem curate_pipeline_record_invariant (w : World) (o : OptionalComponents)
    (raw_data : list raw_entry) :
  exists out : list entry,
    curate_pipeline w o raw_data = Return out /\
    Forall (fun e : entry => exists (t : pystr) (n : Z) (q : float),
      e !! "text"%string = Some (VStr t) /\ t <> [] /\
      e !! "word_count"%string = Some (VInt n) /\
      n = Z.of_nat (length (split t)) /\
      (MIN_WORD_COUNT <= n <= MAX_WORD_COUNT)%Z /\
      e !! "quality_score"%string = Some (VFloat q) /\ (0 <= q)%Q) out.
Proof.
  eexists. split; [apply curate_pipeline_closed_form|].
  apply List.Forall_forall. intros e He.
  apply List.in_map_iff in He as (r & <- & Hr).
  apply List.filter_In in Hr as [_ Hr]. apply within_bounds_spec in Hr.
  eexists _, _, 0.5%Q.
  split; [apply curated_lookup_text|].
  split; [apply split_nonempty_text; unfold MIN_WORD_COUNT in Hr; lia|].
  split; [apply curated_lookup_word_count|].
  split; [reflexivity|]. split; [exact Hr|].
  split; [apply curated_lookup_quality_score|]. by vm_compute.
Qed.

(** ** C3: soft degradation of the perplexity scorer *)

Example crashing_scorer_sample :
  let o := {| embedding_model := None;
              lm_model := Some Sample.crashing_lm;
              lm_tokenizer := Some Sample.code_point_tokenizer;
              use_min_hash := false; minhash_lsh := None |} in
  lm_perplexity_score Sample.full_world o (lit "a b c d e") = None /\
  lm_perplexity_score Sample.full_world Sample.loaded (lit "a b c d e")
  = Some 1%Q.
Proof. by vm_compute. Qed.

(** C3. If the perplexity scorer is unavailable, or its call on a text
    raises, [lm_perplexity_score] returns None instead of raising.  The
    pipeline still returns; a record whose text the scorer failed on carries
    ["perplexity"] = None and a quality score computed from a None
    perplexity; and the output has the same records, with the same fields
    apart from ["perplexity"], as a run with any other scorer. *)
Theorem scorer_failure_is_absorbed (w : World) (o : OptionalComponents)
    (raw_data : list raw_entry) :
  (forall text : pystr,
     scorer_unavailable w o \/ scorer_raises w o text ->
     lm_perplexity_score w o text = None) /\
  exists out : list entry,
    curate_pipeline w o raw_data = Return out /\
    Forall (fun e : entry => exists (t : pystr) (c : value),
      e !! "text"%string = Some (VStr t) /\
      e !! "complexity"%string = Some c /\
      (scorer_unavailable w o \/ scorer_raises w o t ->
       e !! "perplexity"%string = Some VNone /\
       e !! "quality_score"%string
       = Some (VFloat (compute_quality_score (VStr t) c VNone)))) out /\
    (forall (w' : World) (o' : OptionalComponents),
       exists out' : list entry,
         curate_pipeline w' o' raw_data = Return out' /\
         length out = length out' /\
         List.map (delete "perplexity"%string) out
         = List.map (delete "perplexity"%string) out').
Proof.
  assert (forall text : pystr,
    scorer_unavailable w o \/ scorer_raises w o text ->
    lm_perplexity_score w o text = None) as Hnone.
  { intros text [H|H];
      [by apply lm_perplexity_score_unavailable
      |by apply lm_perplexity_score_raises]. }
  split; [exact Hnone|].
  eexists. split; [apply curate_pipeline_closed_form|]. split.
  - apply List.Forall_forall. intros e He.
    apply List.in_map_iff in He as (r & <- & _).
    eexists _, _. split; [apply curated_lookup_text|].
    split; [apply curated_lookup_complexity|].
    intros Hfail. rewrite curated_lookup_perplexity, (Hnone _ Hfail).
    split; [done|]. apply curated_lookup_quality_score.
  - intros w' o'. eexists. split; [apply curate_pipeline_closed_form|].
    rewrite !List.length_map, !List.map_map. split; [done|].
    apply List.map_ext. intros r. apply curated_delete_perplexity.
Qed.

(** ** C7: embeddings unavailable *)

(** C7. When sentence-transformers is not loaded, [embedding_based_augment]
    returns None on every input, and [curate_pipeline] returns the output
    it returns in any run with the same perplexity scorer, whatever that
    run's embedding component is. *)
Theorem embeddings_unavailable_is_noop (w : World) :
  SENTECE_EMBEDDINGS_AVAILABLE w = false ->
  (forall (text : pystr) (pool_texts : list pystr) (model : option Encoder),
     embedding_based_augment w text pool_texts model = None) /\
  (forall (o : OptionalComponents) (raw_data : list raw_entry),
     exists out : list entry,
       curate_pipeline w o raw_data = Return out /\
       forall (w' : World) (o' : OptionalComponents),
         same_scorer w w' o o' ->
         curate_pipeline w' o' raw_data = Return out).
Proof.
  intros Hw. split.
  - intros text pool_texts model. unfold embedding_based_augment.
    by rewrite Hw.
  - intros o raw_data. eexists. split; [apply curate_pipeline_closed_form|].
    intros w' o' Hs.
    rewrite <- (curate_pipeline_same_scorer w w' o o' raw_data Hs).
    apply curate_pipeline_closed_form.
Qed.

Lemma embeddings_unavailable_is_noop_witness :
  SENTECE_EMBEDDINGS_AVAILABLE Sample.bare_world = false /\
  ((forall (text : pystr) (pool_texts : list pystr) (model : option Encoder),
      embedding_based_augment Sample.bare_world text pool_texts model = None) /\
   (forall (o : OptionalComponents) (raw_data : list raw_entry),
      exists out : list entry,
        curate_pipeline Sample.bare_world o raw_data = Return out /\
        forall (w' : World) (o' : OptionalComponents),
          same_scorer Sample.bare_world w' o o' ->
          curate_pipeline w' o' raw_data = Return out)).
Proof.
  split; [reflexivity|].
  apply (embeddings_unavailable_is_noop Sample.bare_world). reflexivity.
Defined.

(** ** C1: near-duplicates in the output *)

Lemma jaccard_similarity_sets_self `{Countable A} (a : gset A) :
  a <> ∅ ->
  exists q : float,
    jaccard_similarity_sets a a = Return q /\ (q == 1)%Q.
Proof.
  intros Ha. unfold jaccard_similarity_sets.
  rewrite (bool_decide_eq_false_2 _ Ha). simpl.
  assert (a ∩ a = a) as ->.
  { apply set_eq. intros x. rewrite elem_of_intersection. tauto. }
  assert (a ∪ a = a) as ->.
  { apply set_eq. intros x. rewrite elem_of_union. tauto. }
  assert (size a <> 0%nat) as Hs.
  { intros E. apply size_empty_inv in E. by apply Ha, leibniz_equiv. }
  rewrite (proj2 (Nat.eqb_neq _ _) Hs), true_div_nonzero by lia.
  eexists. split; [reflexivity|]. apply Qmult_inv_r.
  change 0%Q with (inject_Z 0). rewrite inject_Z_injective. lia.
Qed.

(** C1, on the code.  A raw record that passes the filters and is given
    twice is emitted twice: the output holds two records with the same text,
    whose Jaccard similarity, on any shingling that yields a shingle for
    that text, is 1 and so reaches DEDUPLICATION_THRESHOLD. *)
Theorem curate_pipeline_keeps_duplicates `{Countable Shingle}
    (shingles : pystr -> gset Shingle) (w : World) (o : OptionalComponents)
    (r : raw_entry) :
  nonblank r = true ->
  within_bounds r = true ->
  shingles (normalize_arabic (raw_text r)) <> ∅ ->
  exists (e1 e2 : entry) (t : pystr) (q : float),
    curate_pipeline w o [r; r] = Return [e1; e2] /\
    e1 !! "text"%string = Some (VStr t) /\
    e2 !! "text"%string = Some (VStr t) /\
    jaccard_similarity_sets (shingles t) (shingles t) = Return q /\
    (DEDUPLICATION_THRESHOLD <= q)%Q.
Proof.
  intros Hn Hb Hs. destruct (jaccard_similarity_sets_self _ Hs) as (q & Hq & Hq1).
  exists (curated w o r), (curated w o r), (normalize_arabic (raw_text r)), q.
  split.
  { rewrite curate_pipeline_closed_form. unfold survivors. simpl.
    rewrite Hn. simpl. by rewrite Hb. }
  split; [apply curated_lookup_text|]. split; [apply curated_lookup_text|].
  split; [exact Hq|]. rewrite Hq1. by vm_compute.
Qed.

Lemma curate_pipeline_keeps_duplicates_witness :
  nonblank Sample.five_words = true /\
  within_bounds Sample.five_words = true /\
  Sample.word_shingles (normalize_arabic (raw_text Sample.five_words)) <> ∅ /\
  exists (e1 e2 : entry) (t : pystr) (q : float),
    curate_pipeline Sample.bare_world OPTIONALS
      [Sample.five_words; Sample.five_words] = Return [e1; e2] /\
    e1 !! "text"%string = Some (VStr t) /\
    e2 !! "text"%string = Some (VStr t) /\
    jaccard_similarity_sets (Sample.word_shingles t) (Sample.word_shingles t)
    = Return q /\
    (DEDUPLICATION_THRESHOLD <= q)%Q.
Proof.
  assert (Sample.word_shingles (normalize_arabic (raw_text Sample.five_words))
          <> ∅) as Hs.
  { intros E. assert (lit "a" ∈ (∅ : gset (list N))) as Hin; [|set_solver].
    rewrite <- E. by vm_compute. }
  split; [reflexivity|]. split; [reflexivity|]. split; [exact Hs|].
  apply (curate_pipeline_keeps_duplicates Sample.word_shingles
           Sample.bare_world OPTIONALS Sample.five_words);
    [reflexivity|reflexivity|exact Hs].
Defined.

(** ** C4: two runs over the same input *)

(** C4. Two runs that see the same perplexity scorer, and whose seeded
    splitter gives the same answer at SEED, produce from the same raw input
    the same curated records, in the same order and with the same fields,
    and the same train/validation/test split; the core count, the export
    step and the splitter's behaviour at other seeds do not matter. *)
Theorem two_runs_agree (w1 w2 : World) (o1 o2 : OptionalComponents)
    (raw_data : list raw_entry) :
  same_scorer w1 w2 o1 o2 ->
  (forall (ds : list entry) (size : float),
     train_test_split w1 ds size SEED = train_test_split w2 ds size SEED) ->
  curate_pipeline w1 o1 raw_data = curate_pipeline w2 o2 raw_data /\
  run_final_dataset (main_from w1 o1 raw_data)
  = run_final_dataset (main_from w2 o2 raw_data).
Proof.
  intros Hs Hsplit.
  pose proof (curate_pipeline_same_scorer w1 w2 o1 o2 raw_data Hs) as Hc.
  split; [exact Hc|]. unfold main_from. rewrite Hc.
  destruct raw_data as [|r raw_data]; [done|].
  destruct (curate_pipeline w2 o2 (r :: raw_data)) as [[|e out]|]; [done| |done].
  rewrite Hsplit.
  destruct (train_test_split w2 (e :: out) TEST_SIZE SEED) as [[tr te]|];
    [|done].
  rewrite Hsplit.
  destruct (train_test_split w2 tr _ SEED) as [[tr' va]|]; [|done].
  by destruct (tokenize_and_save w1 _ _), (tokenize_and_save w2 _ _).
Qed.

Lemma two_runs_agree_witness :
  same_scorer Sample.full_world Sample.other_machine Sample.loaded Sample.loaded /\
  (forall (ds : list entry) (size : float),
     train_test_split Sample.full_world ds size SEED
     = train_test_split Sample.other_machine ds size SEED) /\
  curate_pipeline Sample.full_world Sample.loaded
    [Sample.five_words; Sample.two_words; Sample.six_words]
  = curate_pipeline Sample.other_machine Sample.loaded
      [Sample.five_words; Sample.two_words; Sample.six_words] /\
  run_final_dataset
    (main_from Sample.full_world Sample.loaded
       [Sample.five_words; Sample.two_words; Sample.six_words])
  = run_final_dataset
      (main_from Sample.other_machine Sample.loaded
         [Sample.five_words; Sample.two_words; Sample.six_words]).
Proof.
  assert (same_scorer Sample.full_world Sample.other_machine
            Sample.loaded Sample.loaded) as Hs.
  { repeat split; reflexivity. }
  assert (forall (ds : list entry) (size : float),
     train_test_split Sample.full_world ds size SEED
     = train_test_split Sample.other_machine ds size SEED) as Hsplit.
  { intros ds size. reflexivity. }
  split; [exact Hs|]. split; [exact Hsplit|].
  exact (two_runs_agree Sample.full_world Sample.other_machine
           Sample.loaded Sample.loaded
           [Sample.five_words; Sample.two_words; Sample.six_words] Hs Hsplit).
Defined.

(** ** C8: empty stages *)

(** C8 as stated fails: on an empty raw input [main] logs and returns, so
    the script exits with status 0. *)
Lemma empty_input_exit_status_zero :
  run_result (main_from Sample.bare_world OPTIONALS []) = Return tt /\
  exit_status (main_from Sample.bare_world OPTIONALS []) = 0%Z /\
  exit_status (main_from Sample.bare_world OPTIONALS [Sample.two_words]) = 0%Z.
Proof. by vm_compute. Qed.

(** C8, amended.  If the raw input is empty, or curation leaves no record,
    [main] stops before splitting, tokenization and saving, after logging
    one ERROR record whose message tells the two cases apart; it returns
    normally, so the exit status is 0. *)
Theorem empty_stage_aborts (w : World) (o : OptionalComponents)
    (raw_data : list raw_entry) :
  raw_data = [] \/ curate_pipeline w o raw_data = Return [] ->
  run_final_dataset (main_from w o raw_data) = None /\
  run_saved (main_from w o raw_data) = false /\
  run_result (main_from w o raw_data) = Return tt /\
  exit_status (main_from w o raw_data) = 0%Z /\
  (raw_data = [] ->
   run_log (main_from w o raw_data)
   = [banner; (ERROR, "No data found. Aborting."%string)]) /\
  (raw_data <> [] ->
   run_log (main_from w o raw_data)
   = [banner; (ERROR, "No data left after curation. Aborting."%string)]) /\
  "No data found. Aborting."%string
  <> "No data left after curation. Aborting."%string.
Proof.
  intros Hempty. unfold exit_status, main_from.
  destruct raw_data as [|r raw_data].
  - repeat split; done.
  - destruct Hempty as [? | ->]; [done|]. repeat split; done.
Qed.

Lemma empty_stage_aborts_witness :
  ([Sample.two_words] = []
   \/ curate_pipeline Sample.full_world Sample.loaded [Sample.two_words]
      = Return []) /\
  run_final_dataset (main_from Sample.full_world Sample.loaded [Sample.two_words])
  = None /\
  run_log (main_from Sample.full_world Sample.loaded [Sample.two_words])
  = [banner; (ERROR, "No data left after curation. Aborting."%string)].
Proof.
  assert ([Sample.two_words] = []
          \/ curate_pipeline Sample.full_world Sample.loaded [Sample.two_words]
             = Return []) as Hempty.
  { right. vm_compute. reflexivity. }
  split; [exact Hempty|].
  pose proof (empty_stage_aborts Sample.full_world Sample.loaded
                [Sample.two_words] Hempty) as (H1 & _ & _ & _ & _ & H6 & _).
  split; [exact H1|]. apply H6. discriminate.
Defined.

(** [main] as written binds [raw_data] to the empty list. *)
Lemma main_aborts w args :
  run_log (main w args) = [banner; (ERROR, "No data found. Aborting."%string)]
  /\ run_final_dataset (main w args) = None.
Proof. done. Qed.

(** ** C6: embedding-based augmentation *)

Lemma bind_Return_inv {A B} (m : outcome A) (k : A -> outcome B) (b : B) :
  m ≫= k = Return b -> exists a, m = Return a /\ k a = Return b.
Proof. destruct m as [a|e]; simpl; [eauto|discriminate]. Qed.

Lemma mapM_lookup {A B} (f : A -> outcome B) (l : list A) (ys : list B)
    (i : nat) (y : B) :
  mapM f l = Return ys -> ys !! i = Some y ->
  exists x, l !! i = Some x /\ f x = Return y.
Proof.
  revert ys i. induction l as [|x l IH]; intros ys i; simpl.
  - intros [= <-]. by rewrite lookup_nil.
  - intros Hm. apply bind_Return_inv in Hm as (y0 & Hy0 & Hm).
    apply bind_Return_inv in Hm as (ys0 & Hys0 & [= <-]).
    destruct i as [|i]; simpl.
    + intros [= <-]. eauto.
    + intros Hi. eapply IH; eauto.
Qed.

Lemma list_getitem_Return {A} (l : list A) (i : nat) (x : A) :
  list_getitem l i = Return x -> l !! i = Some x.
Proof. unfold list_getitem. by destruct (l !! i); intros [= ->]. Qed.

Example embedding_based_augment_sample :
  embedding_based_augment Sample.full_world (lit "b") [lit "a"; lit "d"]
    (Some Sample.parity_encoder) = Some (lit "d") /\
  embedding_based_augment Sample.full_world (lit "b") [lit "a"; lit "b"]
    (Some Sample.parity_encoder) = None /\
  embedding_based_augment Sample.full_world (lit "b") [lit "a"; lit "c"]
    (Some Sample.parity_encoder) = None /\
  embedding_based_augment Sample.full_world (lit "b") []
    (Some Sample.parity_encoder) = None /\
  embedding_based_augment Sample.full_world (lit "b") [lit "d"] None = None.
Proof. by vm_compute. Qed.

(** C6. [embedding_based_augment] never raises.  When it returns a text,
    that text is an element of the pool, its cosine similarity to the
    source text (as the code computes it from the two embeddings) is at
    least EMBEDDING_AUGMENT_SIM_THRESHOLD, and it differs from the source
    text; in every other case the result is None. *)
Theorem embedding_based_augment_accepts (w : World) (text : pystr)
    (pool_texts : list pystr) (model : option Encoder) (t : pystr) :
  embedding_based_augment w text pool_texts model = Some t ->
  exists (n : Numpy) (base_emb row : list float) (idx : nat) (s : float),
    SENTECE_EMBEDDINGS_AVAILABLE w = true /\ np w = Some n /\
    pool_texts !! idx = Some t /\
    call_encode model text = Return base_emb /\
    call_encode model t = Return row /\
    cosine_row n base_emb row = Return s /\
    (EMBEDDING_AUGMENT_SIM_THRESHOLD <= s)%Q /\
    t <> text.
Proof.
  unfold embedding_based_augment.
  destruct (SENTECE_EMBEDDINGS_AVAILABLE w); [|discriminate].
  destruct (np w) as [n|]; [|discriminate].
  destruct (embedding_based_augment_body n text pool_texts model)
    as [r|e] eqn:Hbody; [|discriminate].
  intros ->. unfold embedding_based_augment_body in Hbody.
  apply bind_Return_inv in Hbody as (base_emb & Hbase & Hbody).
  apply bind_Return_inv in Hbody as (pool_embs & Hpool & Hbody).
  apply bind_Return_inv in Hbody as (sims & Hsims & Hbody).
  apply bind_Return_inv in Hbody as (idx & _ & Hbody).
  apply bind_Return_inv in Hbody as (s & Hs & Hbody).
  destruct (Qle_bool EMBEDDING_AUGMENT_SIM_THRESHOLD s) eqn:Hth;
    [|discriminate].
  apply bind_Return_inv in Hbody as (t' & Ht' & Hbody).
  destruct (bool_decide (t' <> text)) eqn:Hne; [|discriminate].
  injection Hbody as ->.
  apply list_getitem_Return in Hs, Ht'.
  destruct (mapM_lookup _ _ _ _ _ Hsims Hs) as (row & Hrow & Hcos).
  destruct (mapM_lookup _ _ _ _ _ Hpool Hrow) as (t'' & Ht'' & Henc).
  assert (t'' = t) as -> by congruence.
  exists n, base_emb, row, idx, s.
  repeat split; try done.
  - by apply Qle_bool_iff.
  - by apply bool_decide_eq_true in Hne.
Qed.

Lemma embedding_based_augment_accepts_witness :
  embedding_based_augment Sample.full_world (lit "b") [lit "a"; lit "d"]
    (Some Sample.parity_encoder) = Some (lit "d") /\
  exists (n : Numpy) (base_emb row : list float) (idx : nat) (s : float),
    SENTECE_EMBEDDINGS_AVAILABLE Sample.full_world = true /\
    np Sample.full_world = Some n /\
    [lit "a"; lit "d"] !! idx = Some (lit "d") /\
    call_encode (Some Sample.parity_encoder) (lit "b") = Return base_emb /\
    call_encode (Some Sample.parity_encoder) (lit "d") = Return row /\
    cosine_row n base_emb row = Return s /\
    (EMBEDDING_AUGMENT_SIM_THRESHOLD <= s)%Q /\
    lit "d" <> lit "b".
Proof.
  split; [by vm_compute|].
  apply (embedding_based_augment_accepts Sample.full_world (lit "b")
           [lit "a"; lit "d"] (Some Sample.parity_encoder) (lit "d")).
  by vm_compute.
Defined.

(** * Further properties of the code *)

(** ** [normalize_arabic]: the shape of its results *)

(** X1. A normalized text holds no diacritic (U+064B..U+0652), no general
    punctuation (U+2000..U+206F, U+2E00..U+2E7F), and none of the letters
    the function rewrites: the hamza and madda forms of alef, alef maksura,
    waw and yeh with hamza, and teh marbuta. *)
Theorem normalize_arabic_removes_variants (s : pystr) :
  Forall (fun c : char =>
      is_tashkeel c = false /\ is_general_punct c = false /\
      ~ In c [0x0622; 0x0623; 0x0625; 0x0649; 0x0624; 0x0626; 0x0629])
    (normalize_arabic s).
Proof.
  eapply List.Forall_impl; [|apply normalize_arabic_settled].
  intros c Hc. apply settled_spec in Hc as (Ht & Hf & Hp).
  split; [exact Ht|]. split; [exact Hp|]. simpl.
  intros [<-|[<-|[<-|[<-|[<-|[<-|[<-|[]]]]]]]]; vm_compute in Hf; discriminate.
Qed.

Lemma length_sub_runs cls r b x :
  (length (sub_runs_from cls r b x) <= length x)%nat.
Proof.
  revert b; induction x as [|c x IH]; intros b; simpl; [done|].
  pose proof (IH true). pose proof (IH false).
  destruct (cls c); [destruct b|]; simpl; lia.
Qed.

Lemma length_lstrip x : (length (lstrip x) <= length x)%nat.
Proof.
  induction x as [|c x IH]; simpl; [done|]. destruct (isspace c); simpl; lia.
Qed.

Lemma length_rstrip x : (length (rstrip x) <= length x)%nat.
Proof.
  induction x as [|c x IH]; simpl; [done|].
  destruct (rstrip x); [destruct (isspace c)|]; simpl in *; lia.
Qed.

(** X2. Normalization never lengthens a text. *)
Theorem normalize_arabic_length (s : pystr) :
  (length (normalize_arabic s) <= length s)%nat.
Proof.
  unfold normalize_arabic. destruct (negb (truthy s)); simpl; [lia|].
  rewrite letter_rewrites_fused. unfold strip, sub_runs.
  etransitivity; [apply length_rstrip|].
  etransitivity; [apply length_lstrip|].
  etransitivity; [apply length_sub_runs|].
  etransitivity; [apply length_sub_runs|].
  rewrite List.length_map. apply List.filter_length_le.
Qed.

Lemma strip_head x :
  match strip x with [] => True | c :: _ => isspace c = false end.
Proof.
  unfold strip. pose proof (lstrip_head x) as Hh.
  destruct (lstrip x) as [|c w]; [done|].
  destruct (rstrip_head c w Hh) as [r ->]. exact Hh.
Qed.

Lemma single_spaced_head t :
  single_spaced false t = true ->
  match t with [] => True | c :: _ => isspace c = false end ->
  single_spaced true t = true.
Proof. destruct t as [|c t]; simpl; [done|]. intros H Hc. by rewrite Hc in *. Qed.

Lemma split_from_nonempty cur t : cur <> [] -> split_from cur t <> [].
Proof.
  revert cur; induction t as [|c t IH]; intros cur Hcur; simpl.
  - by destruct cur.
  - destruct (isspace c); [by destruct cur|]. by apply IH.
Qed.

Lemma rstrip_fixed_tail c t :
  rstrip (c :: t) = c :: t -> rstrip t = t /\ (isspace c = true -> t <> []).
Proof.
  simpl. destruct (rstrip t) as [|d r] eqn:Hr.
  - destruct (isspace c); [discriminate|]. by intros [= <-].
  - intros [= <-]. split; [done|]. by intros _.
Qed.

Lemma join_cons_nonempty sep w ws :
  ws <> [] -> join sep (w :: ws) = w ++ sep ++ join sep ws.
Proof. by destruct ws. Qed.

Lemma join_split_from cur t :
  single_spaced (negb (truthy cur)) t = true ->
  rstrip t = t ->
  join [SPACE] (split_from cur t) = rev cur ++ t.
Proof.
  revert cur; induction t as [|c t IH]; intros cur Hs Hr.
  - simpl. destruct cur; simpl; [done|]. by rewrite app_nil_r.
  - apply rstrip_fixed_tail in Hr as [Hr Hne]. simpl in *.
    destruct (isspace c) eqn:Hc.
    + apply andb_prop in Hs as [Hs Ht]. apply andb_prop in Hs as [Hcur Hsp].
      apply N.eqb_eq in Hsp. subst c. specialize (Hne eq_refl).
      destruct cur as [|d cur]; [discriminate|].
      assert (split_from [] t <> []) as Hw.
      { destruct t as [|e t]; [done|]. simpl in *.
        destruct (isspace e); [discriminate|]. by apply split_from_nonempty. }
      rewrite (join_cons_nonempty _ _ _ Hw), (IH [] Ht Hr). done.
    + rewrite (IH (c :: cur) Hs Hr). simpl. by rewrite <- app_assoc.
Qed.

(** X3. In a normalized text the words are separated by exactly one U+0020
    and nothing surrounds them: the text equals [' '.join(text.split())]. *)
Theorem normalize_arabic_single_spaced (s : pystr) :
  join [SPACE] (split (normalize_arabic s)) = normalize_arabic s.
Proof.
  assert (exists u, normalize_arabic s = strip (sub_runs isspace SPACE u))
    as [u ->].
  { unfold normalize_arabic. destruct (negb (truthy s)); [by exists []|eauto]. }
  unfold split. rewrite join_split_from; [done| |apply rstrip_idem].
  apply single_spaced_head; [|apply strip_head].
  unfold strip. apply single_spaced_rstrip, (single_spaced_lstrip false).
  apply single_spaced_sub_runs.
Qed.

(** ** [normalize_arabic]: texts that normalize to nothing *)

Lemma fold_letter_keeps_letters c :
  isspace c = false -> is_general_punct c = false ->
  isspace (fold_letter c) = false /\ is_general_punct (fold_letter c) = false.
Proof.
  intros Hs Hp. destruct (fold_letter_cases c) as [->|E]; [done|].
  simpl in E. destruct E as [<-|[<-|[<-|[<-|[]]]]]; by vm_compute.
Qed.

Lemma fold_letter_fixes_filler c :
  isspace c || is_general_punct c = true -> fold_letter c = c.
Proof.
  intros Hc. unfold fold_letter, is_alef_variant. cbv zeta.
  destruct (N.eqb_spec c 0x0625) as [->|_]; [by vm_compute in Hc|].
  destruct (N.eqb_spec c 0x0623) as [->|_]; [by vm_compute in Hc|].
  destruct (N.eqb_spec c 0x0622) as [->|_]; [by vm_compute in Hc|].
  destruct (N.eqb_spec c 0x0627) as [->|_]; [by vm_compute in Hc|].
  cbn [orb].
  destruct (N.eqb_spec 0x0649 c) as [<-|_]; [by vm_compute in Hc|].
  destruct (N.eqb_spec 0x0624 c) as [<-|_]; [by vm_compute in Hc|].
  destruct (N.eqb_spec 0x0626 c) as [<-|_]; [by vm_compute in Hc|].
  destruct (N.eqb_spec 0x0629 c) as [<-|_]; [by vm_compute in Hc|].
  done.
Qed.

Lemma In_sub_runs_keeps cls r b x c :
  In c x -> cls c = false -> In c (sub_runs_from cls r b x).
Proof.
  intros Hin Hc. revert b; induction x as [|d x IH]; intros b; [done|].
  simpl. destruct Hin as [->|Hin].
  - rewrite Hc. by left.
  - destruct (cls d); [destruct b|]; simpl; auto.
Qed.

Lemma In_lstrip_keeps x c : In c x -> isspace c = false -> In c (lstrip x).
Proof.
  intros Hin Hc. induction x as [|d x IH]; [done|]. simpl.
  destruct Hin as [->|Hin]; [by rewrite Hc; left|].
  destruct (isspace d); [auto|by right].
Qed.

Lemma In_rstrip_keeps x c : In c x -> isspace c = false -> In c (rstrip x).
Proof.
  intros Hin Hc. induction x as [|d x IH]; [done|]. simpl.
  destruct Hin as [->|Hin].
  - destruct (rstrip x); [rewrite Hc|]; by left.
  - specialize (IH Hin). destruct (rstrip x); [done|by right].
Qed.

Lemma lstrip_all_space x :
  Forall (fun c => isspace c = true) x -> lstrip x = [].
Proof. induction 1 as [|c x Hc _ IH]; simpl; [done|]. by rewrite Hc. Qed.

Lemma normalize_arabic_filler s :
  Forall (fun c => is_filler c = true) s -> normalize_arabic s = [].
Proof.
  intros Hall. unfold normalize_arabic. destruct (negb (truthy s)); [done|].
  rewrite letter_rewrites_fused. unfold strip.
  rewrite lstrip_all_space; [done|].
  apply List.Forall_forall. intros c Hc.
  apply In_sub_runs in Hc as [->|[Hc Hs]]; [done|].
  apply In_sub_runs in Hc as [->|[Hc Hp]]; [done|].
  apply List.in_map_iff in Hc as (d & <- & Hd).
  apply List.filter_In in Hd as [Hd Ht]. apply negb_true_iff in Ht.
  rewrite List.Forall_forall in Hall. specialize (Hall d Hd).
  unfold is_filler in Hall. rewrite Ht, orb_false_r in Hall.
  rewrite (fold_letter_fixes_filler d Hall) in Hs, Hp.
  rewrite Hs, Hp in Hall. discriminate.
Qed.

Lemma normalize_arabic_keeps_letter s c :
  In c s -> is_filler c = false -> In (fold_letter c) (normalize_arabic s).
Proof.
  intros Hc Hf. unfold normalize_arabic.
  destruct s as [|c0 s0]; [done|]. set (s := c0 :: s0) in *.
  simpl negb. cbv iota. rewrite letter_rewrites_fused.
  unfold is_filler in Hf. apply orb_false_elim in Hf as [Hf Hp].
  apply orb_false_elim in Hf as [Hs Ht].
  destruct (fold_letter_keeps_letters c Hs Hp) as [Hs' Hp'].
  unfold strip, sub_runs.
  apply In_rstrip_keeps; [|done]. apply In_lstrip_keeps; [|done].
  apply In_sub_runs_keeps; [|done]. apply In_sub_runs_keeps; [|done].
  apply List.in_map, List.filter_In. by rewrite Ht.
Qed.

(** X4. A text normalizes to the empty string exactly when it consists of
    whitespace, diacritics and general punctuation only. *)
Theorem normalize_arabic_empty_iff (s : pystr) :
  normalize_arabic s = [] <-> Forall (fun c => is_filler c = true) s.
Proof.
  split; [|apply normalize_arabic_filler].
  intros Hnil. apply List.Forall_forall. intros c Hc.
  destruct (is_filler c) eqn:Hf; [done|exfalso].
  pose proof (normalize_arabic_keeps_letter s c Hc Hf) as Hin.
  by rewrite Hnil in Hin.
Qed.

(** ** [jaccard_similarity_sets]: algebra *)

Lemma jaccard_similarity_sets_nonempty `{Countable A} (a b : gset A) :
  a <> ∅ -> b <> ∅ ->
  (0 < size (a ∪ b))%nat /\
  jaccard_similarity_sets a b
  = Return (inject_Z (Z.of_nat (size (a ∩ b)))
            / inject_Z (Z.of_nat (size (a ∪ b))))%Q.
Proof.
  intros Ha Hb.
  assert (size (a ∪ b) <> 0%nat) as Hu.
  { intros E. apply size_empty_inv in E. apply Ha, leibniz_equiv.
    intros x. specialize (E x). rewrite elem_of_union in E.
    rewrite elem_of_empty in *. tauto. }
  split; [lia|]. unfold jaccard_similarity_sets.
  rewrite (bool_decide_eq_false_2 _ Ha), (bool_decide_eq_false_2 _ Hb). simpl.
  rewrite (proj2 (Nat.eqb_neq _ _) Hu). apply true_div_nonzero. lia.
Qed.

Lemma jaccard_similarity_sets_empty `{Countable A} (a b : gset A) :
  a = ∅ \/ b = ∅ -> jaccard_similarity_sets a b = Return 0%Q.
Proof.
  intros Hab. unfold jaccard_similarity_sets.
  destruct (bool_decide_reflect (a = ∅)); [done|].
  destruct (bool_decide_reflect (b = ∅)); [done|]. tauto.
Qed.

Lemma Q_ratio_eq_iff (i u k : Z) :
  u <> 0%Z ->
  (inject_Z i / inject_Z u == inject_Z k)%Q <-> (i = k * u)%Z.
Proof.
  intros Hu.
  assert (~ inject_Z u == 0)%Q as Hu'.
  { change 0%Q with (inject_Z 0). by rewrite inject_Z_injective. }
  split.
  - intros E. apply inject_Z_injective. rewrite inject_Z_mult, <- E.
    by rewrite Qmult_comm, Qmult_div_r.
  - intros ->. rewrite inject_Z_mult. by apply Qdiv_mult_l.
Qed.

(** X5. The similarity does not depend on the order of its arguments. *)
Theorem jaccard_similarity_sets_comm `{Countable A} (a b : gset A) :
  jaccard_similarity_sets a b = jaccard_similarity_sets b a.
Proof.
  unfold jaccard_similarity_sets. rewrite orb_comm.
  assert (a ∩ b = b ∩ a) as ->.
  { apply set_eq. intros x. rewrite !elem_of_intersection. tauto. }
  assert (a ∪ b = b ∪ a) as ->.
  { apply set_eq. intros x. rewrite !elem_of_union. tauto. }
  done.
Qed.

(** X6. The similarity is 1 exactly for two equal non-empty sets. *)
Theorem jaccard_similarity_sets_one_iff `{Countable A} (a b : gset A) :
  exists q : float,
    jaccard_similarity_sets a b = Return q /\
    ((q == 1)%Q <-> a = b /\ a <> ∅).
Proof.
  destruct (decide (a = ∅)) as [Ha|Ha].
  { exists 0%Q. split; [apply jaccard_similarity_sets_empty; auto|].
    split; [discriminate|tauto]. }
  destruct (decide (b = ∅)) as [Hb|Hb].
  { exists 0%Q. split; [apply jaccard_similarity_sets_empty; auto|].
    split; [discriminate|]. intros [E _]. congruence. }
  destruct (jaccard_similarity_sets_nonempty a b Ha Hb) as [Hu ->].
  eexists. split; [reflexivity|].
  change 1%Q with (inject_Z 1). rewrite Q_ratio_eq_iff by lia. split.
  - intros E. split; [|done].
    assert (a ∩ b = a ∪ b) as Heq.
    { apply set_subseteq_size_eq; [|lia]. intros x.
      rewrite elem_of_intersection, elem_of_union. tauto. }
    apply set_eq. intros x. apply (f_equal (fun X => x ∈ X)) in Heq.
    pose proof (elem_of_intersection a b x). pose proof (elem_of_union a b x).
    rewrite Heq in *. tauto.
  - intros [<- _].
    assert (a ∩ a = a) as ->.
    { apply set_eq. intros x. rewrite elem_of_intersection. tauto. }
    assert (a ∪ a = a) as ->.
    { apply set_eq. intros x. rewrite elem_of_union. tauto. }
    lia.
Qed.

(** X7. The similarity is 0 exactly when the two sets share no element. *)
Theorem jaccard_similarity_sets_zero_iff `{Countable A} (a b : gset A) :
  exists q : float,
    jaccard_similarity_sets a b = Return q /\
    ((q == 0)%Q <-> a ∩ b = ∅).
Proof.
  destruct (decide (a = ∅)) as [Ha|Ha].
  { exists 0%Q. split; [apply jaccard_similarity_sets_empty; auto|].
    split; [|done]. intros _. subst a. apply set_eq. intros x.
    rewrite elem_of_intersection, elem_of_empty. tauto. }
  destruct (decide (b = ∅)) as [Hb|Hb].
  { exists 0%Q. split; [apply jaccard_similarity_sets_empty; auto|].
    split; [|done]. intros _. subst b. apply set_eq. intros x.
    rewrite elem_of_intersection, elem_of_empty. tauto. }
  destruct (jaccard_similarity_sets_nonempty a b Ha Hb) as [Hu ->].
  eexists. split; [reflexivity|].
  change 0%Q with (inject_Z 0). rewrite Q_ratio_eq_iff by lia. split.
  - intros E. apply leibniz_equiv, size_empty_inv. lia.
  - intros ->. by rewrite size_empty.
Qed.

(** ** [embedding_based_augment]: edge cases and the choice of neighbour *)

(** X8. [embedding_based_augment] returns None, without raising, when numpy
    was not imported, when no model is passed, when the pool is empty, and
    when encoding the source text raises. *)
Theorem embedding_based_augment_edge_cases (w : World) (text : pystr)
    (pool_texts : list pystr) (model : option Encoder) :
  (np w = None -> embedding_based_augment w text pool_texts model = None) /\
  embedding_based_augment w text pool_texts None = None /\
  embedding_based_augment w text [] model = None /\
  (forall e, call_encode model text = Raise e ->
             embedding_based_augment w text pool_texts model = None).
Proof.
  unfold embedding_based_augment, embedding_based_augment_body.
  destruct (SENTECE_EMBEDDINGS_AVAILABLE w), (np w) as [n|]; try done.
  split; [done|]. split; [done|]. split.
  - by destruct (call_encode model text).
  - by intros e ->.
Qed.

Lemma Qle_bool_false x y : Qle_bool x y = false -> (y < x)%Q.
Proof.
  intros E. apply Qnot_le_lt. intros Hle.
  apply Qle_bool_iff in Hle. congruence.
Qed.

Lemma argmax_from_first_max (p l : list float) (best_idx i : nat)
    (best : float) :
  i = length p ->
  first_max p best_idx best ->
  exists m, first_max (p ++ l) (argmax_from best_idx best i l) m.
Proof.
  revert p best_idx i best. induction l as [|x l IH]; intros p bi i b Hi Hfm.
  - rewrite app_nil_r. by exists b.
  - simpl. replace (p ++ x :: l) with ((p ++ [x]) ++ l)
      by (by rewrite <- app_assoc).
    assert (S i = length (p ++ [x])) as Hi'
      by (rewrite length_app; simpl; lia).
    destruct Hfm as (Hb & Hmax & Hfirst).
    destruct (Qle_bool x b) eqn:E.
    + apply Qle_bool_iff in E. apply IH; [exact Hi'|]. split; [|split].
      * apply lookup_app_l_Some. exact Hb.
      * intros j y Hj. apply lookup_app_Some in Hj as [Hj|[_ Hj]]; [eauto|].
        apply list_lookup_singleton_Some in Hj as [_ <-]. exact E.
      * intros j y Hlt Hj.
        apply lookup_app_Some in Hj as [Hj|[Hge _]]; [eauto|].
        apply lookup_lt_Some in Hb. lia.
    + apply Qle_bool_false in E. apply IH; [exact Hi'|]. split; [|split].
      * by apply list_lookup_middle.
      * intros j y Hj. apply lookup_app_Some in Hj as [Hj|[_ Hj]].
        -- apply Qlt_le_weak. eapply Qle_lt_trans; [|exact E]. eauto.
        -- apply list_lookup_singleton_Some in Hj as [_ <-]. apply Qle_refl.
      * intros j y Hlt Hj.
        apply lookup_app_Some in Hj as [Hj|[Hge _]]; [|lia].
        eapply Qle_lt_trans; [|exact E]. eauto.
Qed.

Lemma argmax_first_max (l : list float) (idx : nat) :
  argmax l = Return idx -> exists m, first_max l idx m.
Proof.
  destruct l as [|x l]; simpl; [discriminate|]. intros [= <-].
  apply (argmax_from_first_max [x] l 0 1 x); [done|]. split; [done|]. split.
  - intros [|j] y Hj; simpl in Hj; [|by rewrite lookup_nil in Hj].
    injection Hj as <-. apply Qle_refl.
  - intros j y Hlt. lia.
Qed.

Lemma mapM_lookup_fwd {A B} (f : A -> outcome B) (l : list A) (ys : list B)
    (i : nat) (x : A) :
  mapM f l = Return ys -> l !! i = Some x ->
  exists y, ys !! i = Some y /\ f x = Return y.
Proof.
  revert ys i. induction l as [|x0 l IH]; intros ys i; simpl.
  - intros _. by rewrite lookup_nil.
  - intros Hm. apply bind_Return_inv in Hm as (y0 & Hy0 & Hm).
    apply bind_Return_inv in Hm as (ys0 & Hys0 & [= <-]).
    destruct i as [|i]; simpl.
    + intros [= <-]. eauto.
    + intros Hi. eapply IH; eauto.
Qed.

(** X9. The text [embedding_based_augment] returns is the nearest
    neighbour: no pool element has a greater similarity to the source text,
    and every pool element before it has a strictly smaller one. *)
Theorem embedding_based_augment_nearest (w : World) (text : pystr)
    (pool_texts : list pystr) (model : option Encoder) (t : pystr) :
  embedding_based_augment w text pool_texts model = Some t ->
  exists (n : Numpy) (idx : nat) (s : float),
    np w = Some n /\
    pool_texts !! idx = Some t /\
    pool_similarity n model text t = Return s /\
    forall (j : nat) (t' : pystr) (s' : float),
      pool_texts !! j = Some t' ->
      pool_similarity n model text t' = Return s' ->
      (s' <= s)%Q /\ ((j < idx)%nat -> (s' < s)%Q).
Proof.
  unfold embedding_based_augment.
  destruct (SENTECE_EMBEDDINGS_AVAILABLE w); [|discriminate].
  destruct (np w) as [n|]; [|discriminate].
  destruct (embedding_based_augment_body n text pool_texts model)
    as [r|e] eqn:Hbody; [|discriminate].
  intros ->. unfold embedding_based_augment_body in Hbody.
  apply bind_Return_inv in Hbody as (base_emb & Hbase & Hbody).
  apply bind_Return_inv in Hbody as (pool_embs & Hpool & Hbody).
  apply bind_Return_inv in Hbody as (sims & Hsims & Hbody).
  apply bind_Return_inv in Hbody as (idx & Hidx & Hbody).
  apply bind_Return_inv in Hbody as (s & Hs & Hbody).
  destruct (Qle_bool EMBEDDING_AUGMENT_SIM_THRESHOLD s); [|discriminate].
  apply bind_Return_inv in Hbody as (t' & Ht' & Hbody).
  destruct (bool_decide (t' <> text)); [|discriminate].
  injection Hbody as ->.
  apply list_getitem_Return in Hs, Ht'.
  destruct (argmax_first_max sims idx Hidx) as (m & Hm & Hmax & Hfirst).
  assert (m = s) as -> by congruence.
  exists n, idx, s. split; [done|]. split; [done|].
  assert (forall j u v, pool_texts !! j = Some u ->
            pool_similarity n model text u = Return v -> sims !! j = Some v)
    as Hsim.
  { intros j u v Hu Hv. unfold pool_similarity in Hv. rewrite Hbase in Hv.
    simpl in Hv.
    destruct (mapM_lookup_fwd _ _ _ _ _ Hpool Hu) as (row & Hrow & Henc).
    rewrite Henc in Hv. simpl in Hv.
    destruct (mapM_lookup_fwd _ _ _ _ _ Hsims Hrow) as (v' & Hv' & Hcos).
    congruence. }
  split.
  - destruct (mapM_lookup _ _ _ _ _ Hsims Hs) as (row & Hrow & Hcos).
    destruct (mapM_lookup _ _ _ _ _ Hpool Hrow) as (u & Hu & Henc).
    assert (u = t) as -> by congruence.
    unfold pool_similarity. rewrite Hbase. simpl. by rewrite Henc.
  - intros j u v Hu Hv. specialize (Hsim j u v Hu Hv). split; eauto.
Qed.

Lemma embedding_based_augment_nearest_witness :
  embedding_based_augment Sample.full_world (lit "b") [lit "a"; lit "d"; lit "f"]
    (Some Sample.parity_encoder) = Some (lit "d") /\
  exists (n : Numpy) (idx : nat) (s : float),
    np Sample.full_world = Some n /\
    [lit "a"; lit "d"; lit "f"] !! idx = Some (lit "d") /\
    pool_similarity n (Some Sample.parity_encoder) (lit "b") (lit "d")
    = Return s /\
    forall (j : nat) (t' : pystr) (s' : float),
      [lit "a"; lit "d"; lit "f"] !! j = Some t' ->
      pool_similarity n (Some Sample.parity_encoder) (lit "b") t' = Return s' ->
      (s' <= s)%Q /\ ((j < idx)%nat -> (s' < s)%Q).
Proof.
  split; [by vm_compute|].
  apply (embedding_based_augment_nearest Sample.full_world (lit "b")
           [lit "a"; lit "d"; lit "f"] (Some Sample.parity_encoder) (lit "d")).
  by vm_compute.
Defined.

(** ** [lm_perplexity_score]: when it yields a number *)

(** X10. [lm_perplexity_score] returns a number exactly when transformers
    was imported, both the tokenizer and the model are loaded, and the
    tokenizer call, the forward pass and [math.exp] all succeed; the number
    is [math.exp] of the loss. *)
Theorem lm_perplexity_score_Some_iff (w : World) (o : OptionalComponents)
    (text : pystr) (v : float) :
  lm_perplexity_score w o text = Some v <->
  TRANSFORMERS_LM_AVAILABLE w = true /\
  exists (tk : Tokenizer) (m : CausalLM) (enc : list Z) (loss : float),
    lm_tokenizer o = Some tk /\ lm_model o = Some m /\
    tokenize tk text = Return enc /\ lm_loss m enc = Return loss /\
    math_exp w loss = Return v.
Proof.
  unfold lm_perplexity_score, lm_perplexity_score_body. split.
  - destruct (TRANSFORMERS_LM_AVAILABLE w); [|discriminate].
    destruct (lm_model o) as [m|]; [|discriminate]. simpl.
    destruct (lm_tokenizer o) as [tk|]; [|discriminate].
    destruct (tokenize tk text) as [enc|] eqn:Henc; [|discriminate]. simpl.
    destruct (lm_loss m enc) as [loss|] eqn:Hloss; [|discriminate]. simpl.
    destruct (math_exp w loss) as [x|] eqn:Hexp; [|discriminate].
    intros [= <-]. split; [done|]. by exists tk, m, enc, loss.
  - intros (-> & tk & m & enc & loss & -> & -> & Henc & Hloss & Hexp).
    simpl. rewrite Henc. simpl. rewrite Hloss. simpl. by rewrite Hexp.
Qed.

(** ** [normalize_arabic]: texts it leaves alone *)

Lemma lstrip_single_spaced t : single_spaced true t = true -> lstrip t = t.
Proof. destruct t as [|c t]; simpl; [done|]. by destruct (isspace c). Qed.

Lemma normalize_arabic_fixed t :
  Forall (fun c => settled c = true) t ->
  single_spaced true t = true ->
  rstrip t = t ->
  normalize_arabic t = t.
Proof.
  intros Hs Hsp Hr.
  assert (Forall (fun c => is_tashkeel c = false) t) as H1.
  { eapply List.Forall_impl; [|exact Hs]. intros c Hc.
    apply settled_spec in Hc. tauto. }
  assert (Forall (fun c => fold_letter c = c) t) as H2.
  { eapply List.Forall_impl; [|exact Hs]. intros c Hc.
    apply settled_spec in Hc. tauto. }
  assert (Forall (fun c => is_general_punct c = false) t) as H3.
  { eapply List.Forall_impl; [|exact Hs]. intros c Hc.
    apply settled_spec in Hc. tauto. }
  unfold normalize_arabic. destruct (negb (truthy t)) eqn:Ht.
  - destruct t; [done|discriminate].
  - rewrite letter_rewrites_fused, (sub_delete_id _ _ H1),
      (map_fold_letter_id _ H2).
    unfold sub_runs. rewrite (sub_runs_id _ _ _ _ H3).
    rewrite (sub_runs_single_spaced false t (single_spaced_weaken _ _ Hsp)).
    unfold strip. by rewrite (lstrip_single_spaced t Hsp).
Qed.

Lemma normalize_arabic_output_fixed s :
  normalize_arabic (normalize_arabic s) = normalize_arabic s.
Proof.
  apply normalize_arabic_fixed; [apply normalize_arabic_settled| |].
  - unfold normalize_arabic. destruct (negb (truthy s)); [done|].
    apply single_spaced_head; [|apply strip_head].
    unfold strip. apply single_spaced_rstrip, (single_spaced_lstrip false).
    apply single_spaced_sub_runs.
  - unfold normalize_arabic. destruct (negb (truthy s)); [done|].
    apply rstrip_idem.
Qed.

Lemma single_spaced_word b w rest :
  w <> [] -> Forall (fun c => isspace c = false) w ->
  single_spaced b (w ++ rest) = single_spaced false rest.
Proof.
  intros Hne Hw. revert b. induction Hw as [|c w Hc Hw IH]; intros b; [done|].
  simpl. rewrite Hc. destruct w as [|d w]; [done|]. by apply IH.
Qed.

Lemma rstrip_app x y : y <> [] -> rstrip y = y -> rstrip (x ++ y) = x ++ y.
Proof.
  intros Hy Hr. induction x as [|c x IH]; simpl; [done|].
  rewrite IH. destruct (x ++ y) eqn:E; [|done].
  by apply app_eq_nil in E as [_ ->].
Qed.

Lemma rstrip_word w :
  Forall (fun c => isspace c = false) w -> rstrip w = w.
Proof.
  induction 1 as [|c w Hc _ IH]; simpl; [done|]. rewrite IH.
  destruct w; [by rewrite Hc|done].
Qed.

Lemma join_words_shape (ws : list pystr) :
  Forall (fun w => w <> [] /\ Forall (fun c => isspace c = false) w) ws ->
  single_spaced true (join [SPACE] ws) = true /\
  rstrip (join [SPACE] ws) = join [SPACE] ws /\
  (ws <> [] -> join [SPACE] ws <> []).
Proof.
  induction 1 as [|w ws [Hne Hw] Hws (IH1 & IH2 & IH3)]; [done|].
  destruct ws as [|w' ws].
  - simpl. split; [|split].
    + rewrite <- (app_nil_r w). by rewrite single_spaced_word.
    + by apply rstrip_word.
    + done.
  - rewrite join_cons_nonempty by done.
    set (rest := join [SPACE] (w' :: ws)) in *.
    specialize (IH3 ltac:(done)). split; [|split].
    + rewrite single_spaced_word by done. simpl. exact IH1.
    + rewrite app_assoc. by apply rstrip_app.
    + intros _ E. by apply app_eq_nil in E as [-> _].
Qed.

(** X11. A text made of non-empty words joined by single U+0020, whose
    characters are neither whitespace nor diacritics nor general punctuation
    nor one of the rewritten letters, is returned unchanged. *)
Theorem normalize_arabic_clean_text (ws : list pystr) :
  Forall (fun w : pystr =>
      w <> [] /\
      Forall (fun c => settled c = true /\ isspace c = false) w) ws ->
  normalize_arabic (join [SPACE] ws) = join [SPACE] ws.
Proof.
  intros Hws.
  assert (Forall (fun w => w <> [] /\ Forall (fun c => isspace c = false) w) ws)
    as Hshape.
  { eapply List.Forall_impl; [|exact Hws]. intros w [Hne Hw]. split; [done|].
    eapply List.Forall_impl; [|exact Hw]. by intros c [_ ?]. }
  destruct (join_words_shape ws Hshape) as (H1 & H2 & _).
  apply normalize_arabic_fixed; [|done|done].
  clear Hshape H1 H2. induction Hws as [|w ws [_ Hw] _ IH]; [constructor|].
  assert (Forall (fun c => settled c = true) w) as Hw'.
  { eapply List.Forall_impl; [|exact Hw]. by intros c [? _]. }
  destruct ws as [|w' ws]; [exact Hw'|].
  rewrite join_cons_nonempty by done.
  apply List.Forall_app. split; [exact Hw'|].
  apply List.Forall_app. split; [|exact IH]. by repeat constructor.
Qed.

Lemma normalize_arabic_clean_text_witness :
  Forall (fun w : pystr =>
      w <> [] /\
      Forall (fun c => settled c = true /\ isspace c = false) w)
    [lit "abc"; [0x0643; 0x062A; 0x0627; 0x0628]] /\
  normalize_arabic (join [SPACE] [lit "abc"; [0x0643; 0x062A; 0x0627; 0x0628]])
  = join [SPACE] [lit "abc"; [0x0643; 0x062A; 0x0627; 0x0628]].
Proof.
  assert (Forall (fun w : pystr =>
      w <> [] /\
      Forall (fun c => settled c = true /\ isspace c = false) w)
    [lit "abc"; [0x0643; 0x062A; 0x0627; 0x0628]]) as Hws.
  { repeat constructor; discriminate. }
  split; [exact Hws|].
  exact (normalize_arabic_clean_text _ Hws).
Defined.

(** ** [init_optional_components]: what the registry holds afterwards *)

(** X12. Starting from the default registry, each optional component is
    loaded on its own: the embedding model is present exactly when
    sentence-transformers was imported and its constructor returned, the
    LSH index exactly when datasketch was imported and its constructor
    returned, and a failure of one loader leaves the others as they load. *)
Theorem init_optional_components_fields (w : World) (emb : string)
    (lm : option string) :
  let o := init_optional_components w emb lm OPTIONALS in
  embedding_model o
  = (if SENTECE_EMBEDDINGS_AVAILABLE w
     then try_or_None (SentenceTransformer w emb) else None) /\
  minhash_lsh o
  = (if DATASKETCH_AVAILABLE w
     then try_or_None (MinHashLSH w MINHASH_BANDWIDTH MINHASH_PERMUTATIONS)
     else None) /\
  lm_tokenizer o
  = (if str_truthy lm && TRANSFORMERS_LM_AVAILABLE w
     then try_or_None (AutoTokenizer_from_pretrained w (default EmptyString lm))
     else None) /\
  lm_model o
  = (if str_truthy lm && TRANSFORMERS_LM_AVAILABLE w
     then match AutoTokenizer_from_pretrained w (default EmptyString lm) with
          | Return _ =>
              try_or_None
                (AutoModelForCausalLM_from_pretrained w (default EmptyString lm))
          | Raise _ => None
          end
     else None).
Proof.
  unfold init_optional_components. cbv zeta.
  destruct (SENTECE_EMBEDDINGS_AVAILABLE w), (DATASKETCH_AVAILABLE w),
    (str_truthy lm && TRANSFORMERS_LM_AVAILABLE w);
    destruct (SentenceTransformer w emb),
      (MinHashLSH w MINHASH_BANDWIDTH MINHASH_PERMUTATIONS),
      (AutoTokenizer_from_pretrained w (default EmptyString lm)),
      (AutoModelForCausalLM_from_pretrained w (default EmptyString lm));
    done.
Qed.

(** X13. After initialization from the default registry, a loaded language
    model always comes with a loaded tokenizer, and [use_min_hash] is set
    exactly when an LSH index is held. *)
Theorem init_optional_components_consistent (w : World) (emb : string)
    (lm : option string) :
  let o := init_optional_components w emb lm OPTIONALS in
  (is_Some (lm_model o) -> is_Some (lm_tokenizer o)) /\
  (use_min_hash o = true <-> is_Some (minhash_lsh o)).
Proof.
  unfold init_optional_components. cbv zeta.
  destruct (SENTECE_EMBEDDINGS_AVAILABLE w), (DATASKETCH_AVAILABLE w),
    (str_truthy lm && TRANSFORMERS_LM_AVAILABLE w);
    destruct (SentenceTransformer w emb),
      (MinHashLSH w MINHASH_BANDWIDTH MINHASH_PERMUTATIONS),
      (AutoTokenizer_from_pretrained w (default EmptyString lm)),
      (AutoModelForCausalLM_from_pretrained w (default EmptyString lm));
    simpl; (split; [intros [? ?]; by eauto|]);
    (split; [intros ?; by eauto|intros [? ?]; done]).
Qed.

(** X14. When no language-model name is given (the command-line default),
    or the name is empty, or transformers is missing, no model is loaded and
    every record the pipeline emits carries ["perplexity"] = None. *)
Theorem no_lm_name_no_perplexity (w : World) (emb : string)
    (lm : option string) (raw_data : list raw_entry) :
  str_truthy lm = false \/ TRANSFORMERS_LM_AVAILABLE w = false ->
  let o := init_optional_components w emb lm OPTIONALS in
  lm_model o = None /\
  exists out : list entry,
    curate_pipeline w o raw_data = Return out /\
    Forall (fun e : entry => e !! "perplexity"%string = Some VNone) out.
Proof.
  intros Hlm o.
  assert (lm_model o = None) as Hnone.
  { unfold o, init_optional_components. cbv zeta.
    assert (str_truthy lm && TRANSFORMERS_LM_AVAILABLE w = false) as ->.
    { destruct Hlm as [-> | ->]; [done|apply andb_false_r]. }
    destruct (SENTECE_EMBEDDINGS_AVAILABLE w), (DATASKETCH_AVAILABLE w);
      destruct (SentenceTransformer w emb),
        (MinHashLSH w MINHASH_BANDWIDTH MINHASH_PERMUTATIONS); done. }
  split; [exact Hnone|].
  eexists. split; [apply curate_pipeline_closed_form|].
  apply List.Forall_forall. intros e He.
  apply List.in_map_iff in He as (r & <- & _).
  rewrite curated_lookup_perplexity.
  rewrite lm_perplexity_score_unavailable; [done|by right].
Qed.

Lemma no_lm_name_no_perplexity_witness :
  (str_truthy None = false \/ TRANSFORMERS_LM_AVAILABLE Sample.full_world = false)
  /\
  let o := init_optional_components Sample.full_world
             "paraphrase-multilingual-MiniLM-L12-v2"%string None OPTIONALS in
  lm_model o = None /\
  exists out : list entry,
    curate_pipeline Sample.full_world o [Sample.five_words] = Return out /\
    Forall (fun e : entry => e !! "perplexity"%string = Some VNone) out.
Proof.
  split; [left; reflexivity|].
  apply (no_lm_name_no_perplexity Sample.full_world
           "paraphrase-multilingual-MiniLM-L12-v2"%string None
           [Sample.five_words]).
  left. reflexivity.
Defined.

(** ** [curate_pipeline]: which records come out, and in what shape *)

(** X15. Records do not influence one another: curating a concatenation
    gives the concatenation of the two curated lists. *)
Theorem curate_pipeline_app (w : World) (o : OptionalComponents)
    (raw1 raw2 : list raw_entry) :
  curate_pipeline w o (raw1 ++ raw2)
  = (out1 ← curate_pipeline w o raw1;
     out2 ← curate_pipeline w o raw2;
     Return (out1 ++ out2)).
Proof.
  rewrite !curate_pipeline_closed_form. simpl. unfold survivors.
  by rewrite !List.filter_app, List.map_app.
Qed.

Lemma sublist_List_filter {A} (f : A -> bool) (l : list A) :
  sublist (List.filter f l) l.
Proof.
  induction l as [|x l IH]; simpl; [constructor|].
  destruct (f x); by constructor.
Qed.

(** X16. The output follows the input: it is obtained, in input order and
    without repetition or reordering, from exactly those raw records whose
    text is not blank and whose normalized text has between MIN_WORD_COUNT
    and MAX_WORD_COUNT words; in particular it is no longer than the
    input. *)
Theorem curate_pipeline_selects (w : World) (o : OptionalComponents)
    (raw_data : list raw_entry) :
  exists kept : list raw_entry,
    curate_pipeline w o raw_data = Return (List.map (curated w o) kept) /\
    sublist kept raw_data /\
    (forall r, In r kept <->
       In r raw_data /\ strip (raw_text r) <> [] /\
       (MIN_WORD_COUNT
        <= Z.of_nat (length (split (normalize_arabic (raw_text r))))
        <= MAX_WORD_COUNT)%Z) /\
    (length (List.map (curated w o) kept) <= length raw_data)%nat.
Proof.
  exists (survivors raw_data). split; [apply curate_pipeline_closed_form|].
  assert (sublist (survivors raw_data) raw_data) as Hsub.
  { unfold survivors. etransitivity; apply sublist_List_filter. }
  split; [exact Hsub|]. split.
  - intros r. unfold survivors. rewrite !List.filter_In.
    unfold nonblank, within_bounds. cbv zeta.
    rewrite andb_true_iff, Z.leb_le, Z.leb_le.
    assert (truthy (strip (raw_text r)) = true <-> strip (raw_text r) <> [])
      as ->; [|tauto].
    by destruct (strip (raw_text r)).
  - rewrite List.length_map. by apply sublist_length.
Qed.


(** X18. The text of every emitted record is in normal form: normalizing it
    again changes nothing, and it equals its words joined by single
    U+0020. *)
Theorem curate_pipeline_texts_normal (w : World) (o : OptionalComponents)
    (raw_data : list raw_entry) :
  exists out : list entry,
    curate_pipeline w o raw_data = Return out /\
    Forall (fun e : entry => exists t : pystr,
      e !! "text"%string = Some (VStr t) /\
      normalize_arabic t = t /\
      join [SPACE] (split t) = t) out.
Proof.
  eexists. split; [apply curate_pipeline_closed_form|].
  apply List.Forall_forall. intros e He.
  apply List.in_map_iff in He as (r & <- & _).
  eexists. split; [apply curated_lookup_text|].
  split; [apply normalize_arabic_output_fixed|].
  set (s := raw_text r).
  assert (exists u, normalize_arabic s = strip (sub_runs isspace SPACE u))
    as [u ->].
  { unfold normalize_arabic. destruct (negb (truthy s)); [by exists []|eauto]. }
  unfold split. rewrite join_split_from; [done| |apply rstrip_idem].
  apply single_spaced_head; [|apply strip_head].
  unfold strip. apply single_spaced_rstrip, (single_spaced_lstrip false).
  apply single_spaced_sub_runs.
Qed.

(** X19. The ["complexity"] field of every emitted record is the value
    [text_complexity] returns on the record's text, and it is at least 0. *)
Theorem curate_pipeline_complexity (w : World) (o : OptionalComponents)
    (raw_data : list raw_entry) :
  exists out : list entry,
    curate_pipeline w o raw_data = Return out /\
    Forall (fun e : entry => exists (t : pystr) (c : float),
      e !! "text"%string = Some (VStr t) /\
      e !! "complexity"%string = Some (VFloat c) /\
      text_complexity t = Return c /\ (0 <= c)%Q) out.
Proof.
  eexists. split; [apply curate_pipeline_closed_form|].
  apply List.Forall_forall. intros e He.
  apply List.in_map_iff in He as (r & <- & _).
  eexists _, _. split; [apply curated_lookup_text|].
  split; [apply curated_lookup_complexity|].
  split; [apply text_complexity_value|apply complexity_value_nonneg].
Qed.

Lemma lstrip_nil_all_space x :
  lstrip x = [] -> Forall (fun c => isspace c = true) x.
Proof.
  induction x as [|c x IH]; simpl; [constructor|].
  destruct (isspace c) eqn:Hc; [|discriminate]. intros H. constructor; auto.
Qed.

Lemma strip_nil_all_space x :
  strip x = [] -> Forall (fun c => isspace c = true) x.
Proof.
  unfold strip. intros H. apply lstrip_nil_all_space.
  pose proof (lstrip_head x) as Hh. destruct (lstrip x) as [|c y]; [done|].
  destruct (rstrip_head c y Hh) as [r Hr]. congruence.
Qed.

Lemma within_bounds_nonblank r : within_bounds r = true -> nonblank r = true.
Proof.
  intros Hb. apply within_bounds_spec in Hb. unfold nonblank.
  destruct (strip (raw_text r)) eqn:E; [exfalso|done].
  apply strip_nil_all_space in E.
  rewrite normalize_arabic_filler in Hb.
  - simpl in Hb. unfold MIN_WORD_COUNT in Hb. lia.
  - eapply List.Forall_impl; [|exact E]. intros c Hc. unfold is_filler.
    by rewrite Hc.
Qed.

Lemma List_filter_implied {A} (f g : A -> bool) (l : list A) :
  (forall x, f x = true -> g x = true) ->
  List.filter f (List.filter g l) = List.filter f l.
Proof.
  intros Hfg. induction l as [|x l IH]; simpl; [done|].
  destruct (g x) eqn:Hg; simpl; [by rewrite IH|].
  destruct (f x) eqn:Hf; [|exact IH]. apply Hfg in Hf. congruence.
Qed.

Lemma survivors_within_bounds raw_data :
  survivors raw_data = List.filter within_bounds raw_data.
Proof.
  unfold survivors. apply List_filter_implied, within_bounds_nonblank.
Qed.

(** X20. The word-count bounds alone decide which records are emitted: a
    raw record whose normalized text has at least MIN_WORD_COUNT words
    always passes the earlier test for blank text, so that test never
    removes a record the bounds would keep. *)
Theorem curate_pipeline_bounds_decide (w : World) (o : OptionalComponents)
    (raw_data : list raw_entry) :
  curate_pipeline w o raw_data
  = Return (List.map (curated w o) (List.filter within_bounds raw_data)).
Proof.
  by rewrite curate_pipeline_closed_form, survivors_within_bounds.
Qed.

Lemma curated_lookup_source w o r :
  curated w o r !! "source"%string
  = Some (VStr (default (lit "unknown") (r !! "source"%string))).
Proof.
  unfold curated, enrich. cbv zeta.
  rewrite !(lookup_insert_ne _ _ "source"%string) by done.
  apply lookup_insert_eq.
Qed.

Lemma reingest_curated w o r :
  within_bounds r = true ->
  let r' := reingest (curated w o r) in
  nonblank r' = true /\ within_bounds r' = true /\
  curated w o r' = curated w o r.
Proof.
  intros Hb r'.
  assert (raw_text r' = normalize_arabic (raw_text r)) as Htext.
  { unfold r', reingest.
    rewrite curated_lookup_text, curated_lookup_source.
    unfold raw_text. by rewrite lookup_insert_eq. }
  assert (r' !! "source"%string
          = Some (default (lit "unknown") (r !! "source"%string))) as Hsrc.
  { unfold r', reingest.
    rewrite curated_lookup_text, curated_lookup_source.
    rewrite lookup_insert_ne by done. by rewrite lookup_insert_eq. }
  assert (within_bounds r' = true) as Hb'.
  { unfold within_bounds in *. by rewrite Htext, normalize_arabic_output_fixed. }
  split; [by apply within_bounds_nonblank|]. split; [exact Hb'|].
  unfold curated, enrich. fold (raw_text r') (raw_text r).
  rewrite Htext, Hsrc, normalize_arabic_output_fixed. done.
Qed.

(** X21. Curating the pipeline's own output (each record read back as a raw
    record with its text and source) returns that output unchanged. *)
Theorem curate_pipeline_idempotent (w : World) (o : OptionalComponents)
    (raw_data : list raw_entry) :
  exists out : list entry,
    curate_pipeline w o raw_data = Return out /\
    curate_pipeline w o (List.map reingest out) = Return out.
Proof.
  eexists. split; [apply curate_pipeline_closed_form|].
  rewrite curate_pipeline_closed_form. f_equal.
  rewrite (survivors_within_bounds (List.map reingest _)).
  assert (Forall (fun r => within_bounds r = true) (survivors raw_data)) as Hall.
  { apply List.Forall_forall. intros r Hr. unfold survivors in Hr.
    by apply List.filter_In in Hr as [_ ?]. }
  induction Hall as [|r l Hr _ IH]; [done|].
  destruct (reingest_curated w o r Hr) as (_ & Hb & Hc).
  simpl. rewrite Hb. simpl. by rewrite Hc, IH.
Qed.

(** ** [main]: how a run ends *)

(** X22. As written, [main] never reaches curation: the raw data comes from
    [build_raw_data_from_paths], which returns an empty list, so every run,
    whatever is installed and whatever the arguments, logs "No data found.
    Aborting.", builds and saves no dataset, and ends with exit status 0. *)
Theorem main_never_curates (w : World) (args : Args) :
  run_log (main w args)
  = [banner; (ERROR, "No data found. Aborting."%string)] /\
  run_final_dataset (main w args) = None /\
  run_saved (main w args) = false /\
  exit_status (main w args) = 0%Z.
Proof. done. Qed.



(** X24. A run that saves a dataset has gone through every stage: the
    curated list was non-empty, it was split at SEED with TEST_SIZE, the
    train side was split again at SEED with VALIDATION_SIZE / (1 -
    TEST_SIZE), and the saved dataset takes its test split from the first
    split and its train and validation splits from the second; the run logs
    success and ends with status 0. *)
Theorem main_from_success (w : World) (o : OptionalComponents)
    (raw_data : list raw_entry) :
  run_saved (main_from w o raw_data) = true ->
  exists (curated_data tr te tr' va : list entry),
    curate_pipeline w o raw_data = Return curated_data /\
    curated_data <> [] /\
    train_test_split w curated_data TEST_SIZE SEED = Return (tr, te) /\
    train_test_split w tr (VALIDATION_SIZE / (1 - TEST_SIZE))%Q SEED
    = Return (tr', va) /\
    run_final_dataset (main_from w o raw_data)
    = Some {| train := tr'; validation := va; test := te |} /\
    run_log (main_from w o raw_data)
    = [banner; (INFO, "--- Pipeline Finished Successfully! ---"%string)] /\
    exit_status (main_from w o raw_data) = 0%Z.
Proof.
  unfold exit_status, main_from.
  destruct raw_data as [|r raw_data]; [discriminate|].
  rewrite curate_pipeline_closed_form.
  destruct (List.map (curated w o) (survivors (r :: raw_data)))
    as [|c cs] eqn:Hc; [discriminate|].
  destruct (train_test_split w (c :: cs) TEST_SIZE SEED)
    as [[tr te]|e1] eqn:H1; [|discriminate].
  destruct (train_test_split w tr (VALIDATION_SIZE / (1 - TEST_SIZE))%Q SEED)
    as [[tr' va]|e2] eqn:H2; [|discriminate].
  destruct (tokenize_and_save w _ (cpu_count w)) as [u|e3] eqn:H3;
    [|discriminate].
  intros _. exists (c :: cs), tr, te, tr', va. by repeat split.
Qed.

Lemma main_from_success_witness :
  run_saved (main_from Sample.full_world Sample.loaded
               [Sample.five_words; Sample.six_words]) = true /\
  exists (curated_data tr te tr' va : list entry),
    curate_pipeline Sample.full_world Sample.loaded
      [Sample.five_words; Sample.six_words] = Return curated_data /\
    curated_data <> [] /\
    train_test_split Sample.full_world curated_data TEST_SIZE SEED
    = Return (tr, te) /\
    train_test_split Sample.full_world tr
      (VALIDATION_SIZE / (1 - TEST_SIZE))%Q SEED = Return (tr', va) /\
    run_final_dataset (main_from Sample.full_world Sample.loaded
                         [Sample.five_words; Sample.six_words])
    = Some {| train := tr'; validation := va; test := te |} /\
    run_log (main_from Sample.full_world Sample.loaded
               [Sample.five_words; Sample.six_words])
    = [banner; (INFO, "--- Pipeline Finished Successfully! ---"%string)] /\
    exit_status (main_from Sample.full_world Sample.loaded
                   [Sample.five_words; Sample.six_words]) = 0%Z.
Proof.
  split; [by vm_compute|].
  apply (main_from_success Sample.full_world Sample.loaded
           [Sample.five_words; Sample.six_words]).
  by vm_compute.
Defined.

(** ** [text_complexity]: a lower bound *)



